(** * Stream tagger of [ALIChat.response_stream]

    A shallow embedding of [src/phi/model/aliyun/aliyun.py]: the loop of
    [ALIChat.response_stream] (lines 45-73), which relays the reasoning and
    answer text of a streamed chat completion and splices the markers
    [<think>] and [</think>] into it, together with the [StreamData]
    record (lines 10-20) it keeps up to date.

    Python [str] values are modelled by [string]; the two markers are
    ASCII, so concatenation and marker search do not depend on how the
    other characters are encoded. *)

From Stdlib Require Import String Ascii List Bool Arith Lia.
Import ListNotations.
Open Scope string_scope.

(** * Part I: the embedding *)

(** ** Data model *)

(** The value found when the loop probes an optional text attribute of a
    delta with [hasattr(d, 'x') and d.x]: the attribute may be missing
    altogether, hold [None], or hold a string. *)
Inductive Attr : Type :=
| Missing
| PyNone
| PyStr (s : string).

(** [openai.types.chat.chat_completion_chunk.ChoiceDelta], restricted to the
    two attributes the loop reads (and writes). *)
Record ChoiceDelta : Type := mkDelta {
  reasoning_content : Attr;
  content : Attr
}.

Record Choice : Type := mkChoice {
  index : nat;
  delta : ChoiceDelta
}.

Record CompletionUsage : Type := mkUsage {
  completion_tokens : nat;
  prompt_tokens : nat;
  total_tokens : nat
}.

(** [ChatCompletionChunk]: one streamed fragment. *)
Record ChatCompletionChunk : Type := mkChunk {
  choices : list Choice;
  usage : option CompletionUsage
}.

(** [StreamData] (lines 10-20), with its two defaults. *)
Record StreamData : Type := mkStreamData {
  response_content : string;
  response_reasoning_content : option string
}.

Definition StreamData_default : StreamData :=
  {| response_content := ""; response_reasoning_content := None |}.

(** [ModelResponse(content=...)]: the only field the loop sets. *)
Record ModelResponse : Type := mkModelResponse {
  mr_content : string
}.

(** The two [yield] statements of the loop: line 63 (reasoning text) and
    line 73 (answer text).  Every yielded value is recorded with the
    statement that produced it. *)
Inductive YieldSite : Type :=
| AtReasoning
| AtContent.

Record Yielded : Type := mkYielded {
  site : YieldSite;
  value : ModelResponse
}.

(** What [print] writes to standard output (lines 50-51). *)
Inductive Printed : Type :=
| PrintStr (s : string)
| PrintUsage (u : option CompletionUsage).

(** The local state of the loop: the variable [status], the [stream_data]
    object, and the standard output written so far. *)
Record LoopState : Type := mkLoopState {
  status : string;
  stream_data : StreamData;
  stdout : list Printed
}.

(** Line 45-46. *)
Definition initial_state : LoopState :=
  {| status := ""; stream_data := StreamData_default; stdout := [] |}.

(** ** Python exceptions and results *)

Inductive PyExn : Type :=
| IndexError.

Inductive PyResult (A : Type) : Type :=
| Ok (a : A)
| Raise (e : PyExn).

Arguments Ok {A} a.
Arguments Raise {A} e.

Definition bind {A B : Type} (m : PyResult A) (k : A -> PyResult B) : PyResult B :=
  match m with
  | Ok a => k a
  | Raise e => Raise e
  end.

Notation "x <- m ;; k" := (bind m (fun x => k))
  (at level 61, m at next level, right associativity).
Notation "' pat <- m ;; k" := (bind m (fun x => match x with pat => k end))
  (at level 61, pat pattern, m at next level, right associativity).

(** ** Python primitives used by the loop *)

(** [hasattr(d, 'x')]. *)
Definition hasattr (a : Attr) : bool :=
  match a with
  | Missing => false
  | _ => true
  end.

(** Truth value of an attribute value: [None] and [""] are false. *)
Definition py_bool (a : Attr) : bool :=
  match a with
  | Missing | PyNone => false
  | PyStr s => negb (s =? "")
  end.

(** The guard [hasattr(d, 'x') and d.x] of lines 58 and 68. *)
Definition present (a : Attr) : bool := hasattr a && py_bool a.

(** The string held by an attribute that passed the guard. *)
Definition str_of (a : Attr) : string :=
  match a with
  | PyStr s => s
  | _ => ""
  end.

(** [not response.choices] (line 49). *)
Definition no_choices (l : list Choice) : bool :=
  match l with
  | [] => true
  | _ :: _ => false
  end.

(** [response.choices[0]] (line 54): raises [IndexError] on an empty list. *)
Definition getitem0 (l : list Choice) : PyResult Choice :=
  match l with
  | [] => Raise IndexError
  | c :: _ => Ok c
  end.

(** The argument of the first [print] (line 50): a line feed, then [Usage:]. *)
Definition usage_banner : string := String (ascii_of_nat 10) "Usage:".

Definition think_open : string := "<think>".
Definition think_close : string := "</think>".

(** ** The loop body *)

Definition set_status (st : LoopState) (s : string) : LoopState :=
  {| status := s; stream_data := stream_data st; stdout := stdout st |}.

Definition set_stream_data (st : LoopState) (sd : StreamData) : LoopState :=
  {| status := status st; stream_data := sd; stdout := stdout st |}.

Definition print (st : LoopState) (p : Printed) : LoopState :=
  {| status := status st; stream_data := stream_data st;
     stdout := (stdout st ++ [p])%list |}.

Definition set_reasoning_content (d : ChoiceDelta) (s : string) : ChoiceDelta :=
  {| reasoning_content := PyStr s; content := content d |}.

Definition set_content (d : ChoiceDelta) (s : string) : ChoiceDelta :=
  {| reasoning_content := reasoning_content d; content := PyStr s |}.

(** Lines 58-65.  The delta is written in place (line 61), so the block
    returns it along with the state; lines 62 and 64 read it back. *)
Definition handle_reasoning (st : LoopState) (d : ChoiceDelta)
  : LoopState * ChoiceDelta * list Yielded :=
  if present (reasoning_content d) then
    let '(st1, d1) :=
      if status st =? "" then
        (set_status st "think",
         set_reasoning_content d (think_open ++ str_of (reasoning_content d)))
      else (st, d) in
    let st2 :=
      set_stream_data st1
        {| response_content := response_content (stream_data st1);
           response_reasoning_content := Some (str_of (reasoning_content d1)) |} in
    (st2, d1,
     [ {| site := AtReasoning;
          value := {| mr_content := str_of (reasoning_content d1) |} |} ])
  else (st, d, []).

(** Lines 68-73. *)
Definition handle_content (st : LoopState) (d : ChoiceDelta)
  : LoopState * ChoiceDelta * list Yielded :=
  if present (content d) then
    let '(st1, d1) :=
      if status st =? "think" then
        (set_status st "answer",
         set_content d (think_close ++ str_of (content d)))
      else (st, d) in
    let st2 :=
      set_stream_data st1
        {| response_content :=
             response_content (stream_data st1) ++ str_of (content d1);
           response_reasoning_content :=
             response_reasoning_content (stream_data st1) |} in
    (st2, d1,
     [ {| site := AtContent;
          value := {| mr_content := str_of (content d1) |} |} ])
  else (st, d, []).

(** Lines 57-73: both blocks, in the order of the source, on one delta. *)
Definition handle_delta (st : LoopState) (d : ChoiceDelta)
  : LoopState * ChoiceDelta * list Yielded :=
  let '(st1, d1, ys1) := handle_reasoning st d in
  let '(st2, d2, ys2) := handle_content st1 d1 in
  (st2, d2, (ys1 ++ ys2)%list).

(** Lines 49-73: one iteration of the [for] loop. *)
Definition loop_body (st : LoopState) (response : ChatCompletionChunk)
  : PyResult (LoopState * list Yielded) :=
  if no_choices (choices response) then
    Ok (print (print st (PrintStr usage_banner)) (PrintUsage (usage response)), [])
  else
    c <- getitem0 (choices response) ;;
    let '(st', _, ys) := handle_delta st (delta c) in
    Ok (st', ys).

(** Lines 48-73 on a finite stream of fragments, from a given state. *)
Fixpoint run_loop (st : LoopState) (fs : list ChatCompletionChunk)
  : PyResult (LoopState * list Yielded) :=
  match fs with
  | [] => Ok (st, [])
  | f :: fs' =>
      '(st1, ys1) <- loop_body st f ;;
      '(st2, ys2) <- run_loop st1 fs' ;;
      Ok (st2, (ys1 ++ ys2)%list)
  end.

(** [ALIChat.response_stream], given the fragments that [invoke_stream]
    delivers: the final loop state and everything yielded, in order. *)
Definition response_stream (fs : list ChatCompletionChunk)
  : PyResult (LoopState * list Yielded) :=
  run_loop initial_state fs.

(** ** The in-place writes of lines 61 and 71

    The loop writes the marked text back into the delta object it read it
    from.  [run_loop] takes the fragments as values, which is what the loop
    sees as long as [invoke_stream] delivers every delta object once, as the
    client does (one object per server event).  The model below keeps the
    deltas in a store and the fragments as references into it, and shows
    that the two agree on streams of distinct objects. *)

Module InPlace.

Definition Loc : Type := nat.
Definition Heap : Type := Loc -> ChoiceDelta.

Definition store (h : Heap) (l : Loc) (d : ChoiceDelta) : Heap :=
  fun l' => if Nat.eqb l' l then d else h l'.

(** A fragment whose choices point to delta objects in the store. *)
Record ChunkRef : Type := mkChunkRef {
  delta_refs : list Loc;
  usage_ref : option CompletionUsage
}.

Definition load (h : Heap) (c : ChunkRef) : ChatCompletionChunk :=
  {| choices := map (fun l => {| index := 0; delta := h l |}) (delta_refs c);
     usage := usage_ref c |}.

Definition all_refs (cs : list ChunkRef) : list Loc :=
  flat_map delta_refs cs.

(** Lines 49-73 on a referenced fragment: the delta of the first choice is
    read from the store and written back as the two blocks leave it. *)
Definition loop_body_refs (st : LoopState) (h : Heap) (c : ChunkRef)
  : PyResult (LoopState * Heap * list Yielded) :=
  match delta_refs c with
  | [] =>
      Ok (print (print st (PrintStr usage_banner)) (PrintUsage (usage_ref c)),
          h, [])
  | l :: _ =>
      let '(st', d', ys) := handle_delta st (h l) in
      Ok (st', store h l d', ys)
  end.

(** Lines 48-73 on a finite stream of referenced fragments. *)
Fixpoint run_loop_refs (st : LoopState) (h : Heap) (cs : list ChunkRef)
  : PyResult (LoopState * Heap * list Yielded) :=
  match cs with
  | [] => Ok (st, h, [])
  | c :: cs' =>
      '(st1, h1, ys1) <- loop_body_refs st h c ;;
      '(st2, h2, ys2) <- run_loop_refs st1 h1 cs' ;;
      Ok (st2, h2, (ys1 ++ ys2)%list)
  end.

End InPlace.

(** ** Observations on the yielded sequence *)

(** The [content] of each yielded [ModelResponse], in order. *)
Definition texts (ys : list Yielded) : list string :=
  map (fun y => mr_content (value y)) ys.

(** The contents yielded at one of the two [yield] statements. *)
Definition texts_at (k : YieldSite) (ys : list Yielded) : list string :=
  texts (filter (fun y => match site y, k with
                          | AtReasoning, AtReasoning => true
                          | AtContent, AtContent => true
                          | _, _ => false
                          end) ys).

(** Concatenation of a list of strings, as the consumer does it. *)
Definition join (l : list string) : string := fold_right append "" l.

(** The annotated transcript the consumer rebuilds from the events. *)
Definition transcript (ys : list Yielded) : string := join (texts ys).

(** [yield ModelResponse(content=s)] at the statement [k]. *)
Definition yield (k : YieldSite) (s : string) : Yielded :=
  {| site := k; value := {| mr_content := s |} |}.

(** The reasoning field after some events, given what it held before: the
    text of the last event yielded by the reasoning block, if there is one. *)
Definition latest_reasoning (before : option string) (ys : list Yielded)
  : option string :=
  last (map Some (texts_at AtReasoning ys)) before.

(** ** The fragment as the specification sees it *)

(** The non-empty reasoning text of a fragment, if it has one. *)
Definition reasoning_text (r : ChatCompletionChunk) : option string :=
  match choices r with
  | [] => None
  | c :: _ =>
      if present (reasoning_content (delta c))
      then Some (str_of (reasoning_content (delta c))) else None
  end.

(** The non-empty answer text of a fragment, if it has one. *)
Definition answer_text (r : ChatCompletionChunk) : option string :=
  match choices r with
  | [] => None
  | c :: _ =>
      if present (content (delta c))
      then Some (str_of (content (delta c))) else None
  end.

(** The answer texts of a stream, in order. *)
Definition answer_texts (fs : list ChatCompletionChunk) : list string :=
  flat_map (fun r => match answer_text r with Some t => [t] | None => [] end) fs.

(** ** The relayed text and the splicing of the markers

    The text the loop relays, fragment by fragment, is a sequence of tokens:
    a reasoning text, then an answer text, for each delta that holds them.
    What the loop yields depends on the fragments only through this
    sequence, which [splice] walks with the variable [status]. *)

Abbreviation Token := (YieldSite * string)%type.

(** The texts of one delta that pass the guards of lines 58 and 68. *)
Definition relayed_delta (d : ChoiceDelta) : list Token :=
  ((if present (reasoning_content d)
    then [(AtReasoning, str_of (reasoning_content d))] else [])
   ++
   (if present (content d)
    then [(AtContent, str_of (content d))] else []))%list.

Definition relayed_frag (r : ChatCompletionChunk) : list Token :=
  match choices r with
  | [] => []
  | c :: _ => relayed_delta (delta c)
  end.

Definition relayed (fs : list ChatCompletionChunk) : list Token :=
  flat_map relayed_frag fs.

(** What one relayed text becomes under the value [s] of [status], and the
    value of [status] after it: the tests of lines 59 and 69. *)
Definition splice_one (s : string) (tk : Token) : string * Yielded :=
  match tk with
  | (AtReasoning, t) =>
      if s =? "" then ("think", yield AtReasoning (think_open ++ t))
      else (s, yield AtReasoning t)
  | (AtContent, t) =>
      if s =? "think" then ("answer", yield AtContent (think_close ++ t))
      else (s, yield AtContent t)
  end.

Fixpoint splice (s : string) (tks : list Token) : string * list Yielded :=
  match tks with
  | [] => (s, [])
  | tk :: tks' =>
      let '(s1, y) := splice_one s tk in
      let '(s2, ys) := splice s1 tks' in
      (s2, y :: ys)
  end.

(** The token is a reasoning text ([AtReasoning]) or an answer text
    ([AtContent]). *)
Definition is_at (k : YieldSite) (tk : Token) : Prop := fst tk = k.

Definition opt_token (k : YieldSite) (o : option string) : list Token :=
  match o with
  | Some t => [(k, t)]
  | None => []
  end.

(** A token sequence yielded as it is, without any marker. *)
Definition plain (tks : list Token) : list Yielded :=
  map (fun tk => yield (fst tk) (snd tk)) tks.

(** ** Occurrences of a marker in a transcript *)

(** [s.startswith(p)]. *)
Fixpoint starts_with (p s : string) : bool :=
  match p with
  | EmptyString => true
  | String a p' =>
      match s with
      | EmptyString => false
      | String b s' => Ascii.eqb a b && starts_with p' s'
      end
  end.

(** The number of positions of [s] at which [p] occurs.  Neither marker can
    overlap a copy of itself, so for them this is also [s.count(p)]. *)
Fixpoint occurrences (p s : string) : nat :=
  (if starts_with p s then 1 else 0)
  + match s with
    | EmptyString => 0
    | String _ s' => occurrences p s'
    end.

(** The character [c] does not occur in [s]. *)
Fixpoint char_free (c : ascii) (s : string) : bool :=
  match s with
  | EmptyString => true
  | String a s' => negb (Ascii.eqb a c) && char_free c s'
  end.

(** ** The phase held in [status] *)

(** The three values [status] takes, in the order the loop visits them. *)
Definition phase_rank (s : string) : option nat :=
  if s =? "" then Some 0
  else if s =? "think" then Some 1
  else if s =? "answer" then Some 2
  else None.

(** ** Fragments for the scenarios *)

(** A fragment with one choice, whose delta holds [r] and [c]. *)
Definition frag (r c : Attr) : ChatCompletionChunk :=
  {| choices := [ {| index := 0; delta := {| reasoning_content := r; content := c |} |} ];
     usage := None |}.

Definition reasoning_frag (s : string) : ChatCompletionChunk := frag (PyStr s) PyNone.
Definition answer_frag (s : string) : ChatCompletionChunk := frag Missing (PyStr s).
Definition usage_frag (u : CompletionUsage) : ChatCompletionChunk :=
  {| choices := []; usage := Some u |}.

(** ** Further observations on a run *)

(** A fragment cut down to what line 54 reads: the delta of its first
    choice.  A fragment without choices is kept as it is. *)
Definition first_choice_only (r : ChatCompletionChunk) : ChatCompletionChunk :=
  match choices r with
  | [] => r
  | c :: _ => {| choices := [ {| index := 0; delta := delta c |} ]; usage := None |}
  end.

(** What lines 50-51 print for one fragment. *)
Definition printed_by (r : ChatCompletionChunk) : list Printed :=
  match choices r with
  | [] => [PrintStr usage_banner; PrintUsage (usage r)]
  | _ :: _ => []
  end.

(** The answer texts among the relayed texts. *)
Definition answers (tks : list Token) : list string :=
  map snd (filter (fun tk => match fst tk with
                             | AtContent => true
                             | AtReasoning => false
                             end) tks).

(** The relayed text as one string, without any marker. *)
Definition raw_text (fs : list ChatCompletionChunk) : string :=
  join (map snd (relayed fs)).

(** The event [y] carries the relayed text [tk], as it is or behind one of
    the two markers, and comes from the matching [yield] statement. *)
Definition carries (y : Yielded) (tk : Token) : Prop :=
  site y = fst tk
  /\ (mr_content (value y) = snd tk
      \/ mr_content (value y) = think_open ++ snd tk
      \/ mr_content (value y) = think_close ++ snd tk).

(** The number of characters the markers add in each phase. *)
Definition marker_overhead (s : string) : nat :=
  if s =? "" then 0
  else if s =? "think" then String.length think_open
  else String.length think_open + String.length think_close.

(** The reasoning texts of a stream, in order. *)
Definition reasoning_texts (fs : list ChatCompletionChunk) : list string :=
  flat_map (fun r => match reasoning_text r with Some t => [t] | None => [] end) fs.

(** The three kinds of stream: no reasoning text at all; reasoning text
    with no answer text from its first fragment on; reasoning text with
    answer text in the same fragment or a later one. *)
Definition no_reasoning (fs : list ChatCompletionChunk) : Prop :=
  Forall (fun r => reasoning_text r = None) fs.

Definition reasoning_unanswered (fs : list ChatCompletionChunk) : Prop :=
  exists l1 f l2,
    fs = (l1 ++ f :: l2)%list
    /\ Forall (fun r => reasoning_text r = None) l1
    /\ reasoning_text f <> None
    /\ Forall (fun g => answer_text g = None) (f :: l2).

Definition reasoning_answered (fs : list ChatCompletionChunk) : Prop :=
  exists l1 f l2,
    fs = (l1 ++ f :: l2)%list
    /\ reasoning_text f <> None
    /\ Exists (fun g => answer_text g <> None) (f :: l2).

(** * Part II: properties *)

(** ** Basic facts on strings and lists *)

Lemma append_assoc (a b c : string) : (a ++ b) ++ c = a ++ (b ++ c).
Proof. induction a as [|x a IH]; simpl; [reflexivity | now rewrite IH]. Qed.

Lemma append_nil_r (a : string) : a ++ "" = a.
Proof. induction a as [|x a IH]; simpl; [reflexivity | now rewrite IH]. Qed.

Lemma join_cons (s : string) (l : list string) : join (s :: l) = s ++ join l.
Proof. reflexivity. Qed.

Lemma join_app (l1 l2 : list string) :
  join (l1 ++ l2)%list = join l1 ++ join l2.
Proof.
  induction l1 as [|s l1 IH]; [reflexivity|].
  change ((s :: l1) ++ l2)%list with (s :: (l1 ++ l2))%list.
  now rewrite !join_cons, IH, append_assoc.
Qed.

Lemma texts_app (ys1 ys2 : list Yielded) :
  texts (ys1 ++ ys2)%list = (texts ys1 ++ texts ys2)%list.
Proof. unfold texts. apply map_app. Qed.

Lemma texts_cons (y : Yielded) (ys : list Yielded) :
  texts (y :: ys) = mr_content (value y) :: texts ys.
Proof. reflexivity. Qed.

Lemma texts_at_app (k : YieldSite) (ys1 ys2 : list Yielded) :
  texts_at k (ys1 ++ ys2)%list = (texts_at k ys1 ++ texts_at k ys2)%list.
Proof. unfold texts_at. now rewrite filter_app, texts_app. Qed.

Lemma last_cons_default {A : Type} (a : A) (l : list A) (d d' : A) :
  last (a :: l) d = last (a :: l) d'.
Proof.
  revert a. induction l as [|b l IH]; intros a; [reflexivity|].
  change (last (b :: l) d = last (b :: l) d'). apply IH.
Qed.

Lemma last_app_default {A : Type} (l1 l2 : list A) (d : A) :
  last (l1 ++ l2)%list d = last l2 (last l1 d).
Proof.
  induction l1 as [|a l1 IH]; [reflexivity|].
  destruct l1 as [|b l1].
  - destruct l2 as [|c l2]; [reflexivity|].
    change (last (c :: l2) d = last (c :: l2) a). apply last_cons_default.
  - change (last ((b :: l1) ++ l2)%list d = last l2 (last (b :: l1) d)).
    exact IH.
Qed.

(** ** The loop body never raises *)

Lemma loop_body_no_choices (st : LoopState) (u : option CompletionUsage) :
  loop_body st {| choices := []; usage := u |}
  = Ok (print (print st (PrintStr usage_banner)) (PrintUsage u), []).
Proof. reflexivity. Qed.

Lemma loop_body_choice (st : LoopState) (c : Choice) (cs : list Choice)
      (u : option CompletionUsage) :
  loop_body st {| choices := c :: cs; usage := u |}
  = Ok (fst (fst (handle_delta st (delta c))), snd (handle_delta st (delta c))).
Proof.
  unfold loop_body. simpl.
  destruct (handle_delta st (delta c)) as [[st' d'] ys]. reflexivity.
Qed.

Lemma loop_body_total (st : LoopState) (r : ChatCompletionChunk) :
  exists st' ys, loop_body st r = Ok (st', ys).
Proof.
  destruct r as [[|c cs] u].
  - rewrite loop_body_no_choices. eauto.
  - rewrite loop_body_choice. eauto.
Qed.

Lemma run_loop_total (fs : list ChatCompletionChunk) :
  forall st, exists st' ys, run_loop st fs = Ok (st', ys).
Proof.
  induction fs as [|f fs IH]; intros st; simpl.
  - eauto.
  - destruct (loop_body_total st f) as (st1 & ys1 & E1). rewrite E1. simpl.
    destruct (IH st1) as (st2 & ys2 & E2). rewrite E2. simpl. eauto.
Qed.

Lemma run_loop_cons (st : LoopState) (f : ChatCompletionChunk)
      (fs : list ChatCompletionChunk) (st1 st2 : LoopState)
      (ys1 ys2 : list Yielded) :
  loop_body st f = Ok (st1, ys1) ->
  run_loop st1 fs = Ok (st2, ys2) ->
  run_loop st (f :: fs) = Ok (st2, (ys1 ++ ys2)%list).
Proof. intros E1 E2. simpl. rewrite E1. simpl. rewrite E2. reflexivity. Qed.

Lemma run_loop_cons_inv (st : LoopState) (f : ChatCompletionChunk)
      (fs : list ChatCompletionChunk) (st2 : LoopState) (ys : list Yielded) :
  run_loop st (f :: fs) = Ok (st2, ys) ->
  exists st1 ys1 ys2,
    loop_body st f = Ok (st1, ys1)
    /\ run_loop st1 fs = Ok (st2, ys2)
    /\ ys = (ys1 ++ ys2)%list.
Proof.
  simpl. intros E.
  destruct (loop_body st f) as [[st1 ys1]|e]; simpl in E; [|discriminate].
  destruct (run_loop st1 fs) as [[st2' ys2]|e] eqn:E2; simpl in E; [|discriminate].
  inversion E; subst. exists st1, ys1, ys2. repeat split. exact E2.
Qed.

Lemma run_loop_app (fs1 fs2 : list ChatCompletionChunk) :
  forall st st1 st2 ys1 ys2,
    run_loop st fs1 = Ok (st1, ys1) ->
    run_loop st1 fs2 = Ok (st2, ys2) ->
    run_loop st (fs1 ++ fs2)%list = Ok (st2, (ys1 ++ ys2)%list).
Proof.
  induction fs1 as [|f fs1 IH]; intros st st1 st2 ys1 ys2 E1 E2.
  - simpl in E1. inversion E1; subst. exact E2.
  - apply run_loop_cons_inv in E1.
    destruct E1 as (sta & ya & yb & Ea & Eb & ->).
    change ((f :: fs1) ++ fs2)%list with (f :: (fs1 ++ fs2))%list.
    rewrite <- app_assoc.
    eapply run_loop_cons; [exact Ea|].
    eapply IH; eassumption.
Qed.

(** C8: the loop never rejects a fragment.  Every iteration, and hence the
    whole stream, returns normally; [choices[0]] is evaluated only on a
    non-empty list, where it cannot raise; and a delta whose text attributes
    are missing is passed over without an event or a change of state. *)
Theorem C8_never_rejects :
  (forall st r, exists st' ys, loop_body st r = Ok (st', ys))
  /\ (forall fs, exists st ys, response_stream fs = Ok (st, ys))
  /\ (forall r, no_choices (choices r) = true
                \/ exists c, getitem0 (choices r) = Ok c)
  /\ (forall st i cs u,
         loop_body st
           {| choices := {| index := i;
                            delta := {| reasoning_content := Missing;
                                        content := Missing |} |} :: cs;
              usage := u |}
         = Ok (st, [])).
Proof.
  split; [exact loop_body_total|].
  split; [intros fs; apply run_loop_total|].
  split.
  - intros [[|c cs] u]; simpl; [now left | right; eauto].
  - intros st i cs u. reflexivity.
Qed.

(** C7: a fragment without choices yields nothing.  Its usage goes to
    standard output, after the banner, and nowhere else: [status] and
    [stream_data] are as before.  In particular a stream made of one such
    fragment yields no event. *)
Theorem C7_usage_fragment_yields_nothing :
  (forall st u,
      exists st',
        loop_body st {| choices := []; usage := u |} = Ok (st', [])
        /\ status st' = status st
        /\ stream_data st' = stream_data st
        /\ stdout st' = (stdout st ++ [PrintStr usage_banner; PrintUsage u])%list)
  /\ (forall u,
         exists st,
           response_stream [usage_frag u] = Ok (st, [])
           /\ status st = ""
           /\ stream_data st = StreamData_default).
Proof.
  split.
  - intros st u. eexists. split; [apply loop_body_no_choices|].
    simpl. repeat split. now rewrite <- app_assoc.
  - intros u. eexists. split; [reflexivity|]. split; reflexivity.
Qed.

(** ** Scenarios *)

(** C3: on the fragments [{reasoning:"a"}, {reasoning:"b"}, {answer:"c"}]
    the stream yields exactly the three events "<think>a", "b" and
    "</think>c", in that order. *)
Theorem C3_scenario_reasoning_then_answer :
  exists st ys,
    response_stream [reasoning_frag "a"; reasoning_frag "b"; answer_frag "c"]
      = Ok (st, ys)
    /\ texts ys = ["<think>a"; "b"; "</think>c"].
Proof.
  eexists; eexists; split; [ vm_compute; reflexivity | reflexivity ].
Qed.

(** ** The two blocks of the loop body, case by case *)

Lemma present_spec (a : Attr) :
  present a = true <-> exists s, a = PyStr s /\ s <> "".
Proof.
  unfold present. destruct a as [| |s]; simpl.
  - split; [discriminate | intros (s & E & _); discriminate].
  - split; [discriminate | intros (s & E & _); discriminate].
  - destruct (String.eqb_spec s "") as [->|N]; simpl.
    + split; [discriminate | intros (s & E & N); inversion E; subst; now elim N].
    + split; [eauto | reflexivity].
Qed.

Lemma absent_spec (a : Attr) :
  present a = false <-> a = Missing \/ a = PyNone \/ a = PyStr "".
Proof.
  unfold present. destruct a as [| |s]; simpl.
  - split; auto.
  - split; auto.
  - destruct (String.eqb_spec s "") as [->|N]; simpl.
    + split; auto.
    + split; [discriminate|].
      intros [E|[E|E]]; try discriminate. inversion E; subst; now elim N.
Qed.

Lemma handle_reasoning_absent (st : LoopState) (d : ChoiceDelta) :
  present (reasoning_content d) = false ->
  handle_reasoning st d = (st, d, []).
Proof. unfold handle_reasoning. now intros ->. Qed.

Lemma handle_reasoning_first (st : LoopState) (d : ChoiceDelta) :
  present (reasoning_content d) = true ->
  status st = "" ->
  handle_reasoning st d
  = ({| status := "think";
        stream_data :=
          {| response_content := response_content (stream_data st);
             response_reasoning_content :=
               Some (think_open ++ str_of (reasoning_content d)) |};
        stdout := stdout st |},
     set_reasoning_content d (think_open ++ str_of (reasoning_content d)),
     [yield AtReasoning (think_open ++ str_of (reasoning_content d))]).
Proof. unfold handle_reasoning. intros -> ->. reflexivity. Qed.

Lemma handle_reasoning_later (st : LoopState) (d : ChoiceDelta) :
  present (reasoning_content d) = true ->
  status st <> "" ->
  handle_reasoning st d
  = ({| status := status st;
        stream_data :=
          {| response_content := response_content (stream_data st);
             response_reasoning_content :=
               Some (str_of (reasoning_content d)) |};
        stdout := stdout st |},
     d,
     [yield AtReasoning (str_of (reasoning_content d))]).
Proof.
  unfold handle_reasoning. intros -> N.
  apply String.eqb_neq in N. rewrite N. reflexivity.
Qed.

Lemma handle_content_absent (st : LoopState) (d : ChoiceDelta) :
  present (content d) = false ->
  handle_content st d = (st, d, []).
Proof. unfold handle_content. now intros ->. Qed.

Lemma handle_content_closing (st : LoopState) (d : ChoiceDelta) :
  present (content d) = true ->
  status st = "think" ->
  handle_content st d
  = ({| status := "answer";
        stream_data :=
          {| response_content :=
               response_content (stream_data st)
               ++ (think_close ++ str_of (content d));
             response_reasoning_content :=
               response_reasoning_content (stream_data st) |};
        stdout := stdout st |},
     set_content d (think_close ++ str_of (content d)),
     [yield AtContent (think_close ++ str_of (content d))]).
Proof. unfold handle_content. intros -> ->. reflexivity. Qed.

Lemma handle_content_plain (st : LoopState) (d : ChoiceDelta) :
  present (content d) = true ->
  status st <> "think" ->
  handle_content st d
  = ({| status := status st;
        stream_data :=
          {| response_content :=
               response_content (stream_data st) ++ str_of (content d);
             response_reasoning_content :=
               response_reasoning_content (stream_data st) |};
        stdout := stdout st |},
     d,
     [yield AtContent (str_of (content d))]).
Proof.
  unfold handle_content. intros -> N.
  apply String.eqb_neq in N. rewrite N. reflexivity.
Qed.

(** Case analysis on a block: the guard, then the test on [status]. *)
Ltac reasoning_cases st d :=
  let P := fresh "P" in
  let S := fresh "S" in
  destruct (present (reasoning_content d)) eqn:P;
  [ destruct (String.eqb_spec (status st) "") as [S|S];
    [ rewrite (handle_reasoning_first st d P S)
    | rewrite (handle_reasoning_later st d P S) ]
  | rewrite (handle_reasoning_absent st d P) ].

Ltac content_cases st d :=
  let P := fresh "P" in
  let S := fresh "S" in
  destruct (present (content d)) eqn:P;
  [ destruct (String.eqb_spec (status st) "think") as [S|S];
    [ rewrite (handle_content_closing st d P S)
    | rewrite (handle_content_plain st d P S) ]
  | rewrite (handle_content_absent st d P) ].

Lemma handle_reasoning_keeps_content (st : LoopState) (d : ChoiceDelta) :
  content (snd (fst (handle_reasoning st d))) = content d.
Proof. reasoning_cases st d; reflexivity. Qed.

(** C6: an empty string is treated like an absent attribute.  A block whose
    attribute is missing, [None] or [""] yields nothing and leaves the state
    alone; a block that yields or moves [status] had a non-empty string; a
    fragment behaves the same whether an attribute is [""], [None] or
    missing; and [{reasoning:""}, {answer:"x"}] yields exactly "x". *)
Theorem C6_empty_same_as_absent :
  (forall st d,
      reasoning_content d = Missing \/ reasoning_content d = PyNone
      \/ reasoning_content d = PyStr "" ->
      handle_reasoning st d = (st, d, []))
  /\ (forall st d,
         content d = Missing \/ content d = PyNone \/ content d = PyStr "" ->
         handle_content st d = (st, d, []))
  /\ (forall st d st' d' ys,
         handle_reasoning st d = (st', d', ys) ->
         ys <> [] \/ status st' <> status st ->
         exists s, reasoning_content d = PyStr s /\ s <> "")
  /\ (forall st d st' d' ys,
         handle_content st d = (st', d', ys) ->
         ys <> [] \/ status st' <> status st ->
         exists s, content d = PyStr s /\ s <> "")
  /\ (forall st i cs u a,
         loop_body st {| choices := mkChoice i (mkDelta (PyStr "") a) :: cs; usage := u |}
         = loop_body st {| choices := mkChoice i (mkDelta Missing a) :: cs; usage := u |}
         /\ loop_body st {| choices := mkChoice i (mkDelta PyNone a) :: cs; usage := u |}
            = loop_body st {| choices := mkChoice i (mkDelta Missing a) :: cs; usage := u |}
         /\ loop_body st {| choices := mkChoice i (mkDelta a (PyStr "")) :: cs; usage := u |}
            = loop_body st {| choices := mkChoice i (mkDelta a Missing) :: cs; usage := u |}
         /\ loop_body st {| choices := mkChoice i (mkDelta a PyNone) :: cs; usage := u |}
            = loop_body st {| choices := mkChoice i (mkDelta a Missing) :: cs; usage := u |})
  /\ (exists st ys,
         response_stream [reasoning_frag ""; answer_frag "x"] = Ok (st, ys)
         /\ texts ys = ["x"]).
Proof.
  split; [|split; [|split; [|split; [|split]]]].
  - intros st d H. apply handle_reasoning_absent. now apply absent_spec.
  - intros st d H. apply handle_content_absent. now apply absent_spec.
  - intros st d st' d' ys E H. apply present_spec.
    destruct (present (reasoning_content d)) eqn:P; [reflexivity|].
    rewrite (handle_reasoning_absent st d P) in E. inversion E; subst.
    destruct H as [H|H]; now elim H.
  - intros st d st' d' ys E H. apply present_spec.
    destruct (present (content d)) eqn:P; [reflexivity|].
    rewrite (handle_content_absent st d P) in E. inversion E; subst.
    destruct H as [H|H]; now elim H.
  - intros st i cs u a. rewrite !loop_body_choice.
    unfold handle_delta, handle_reasoning, handle_content. cbn.
    repeat split;
      destruct (present a); cbn; try reflexivity;
      repeat match goal with
             | |- context [if ?b then _ else _] => destruct b; cbn
             end;
      reflexivity.
  - eexists; eexists; split; [vm_compute; reflexivity | reflexivity].
Qed.

Lemma C6_empty_same_as_absent_witness :
  handle_reasoning initial_state {| reasoning_content := PyStr ""; content := PyStr "x" |}
  = (initial_state, {| reasoning_content := PyStr ""; content := PyStr "x" |}, [])
  /\ handle_content initial_state {| reasoning_content := PyStr "r"; content := PyNone |}
     = (initial_state, {| reasoning_content := PyStr "r"; content := PyNone |}, [])
  /\ (exists s, reasoning_content (mkDelta (PyStr "r") Missing) = PyStr s /\ s <> "")
  /\ (exists s, content (mkDelta Missing (PyStr "x")) = PyStr s /\ s <> "").
Proof.
  split; [|split; [|split]].
  - apply (proj1 C6_empty_same_as_absent). right; right; reflexivity.
  - apply (proj1 (proj2 C6_empty_same_as_absent)). right; left; reflexivity.
  - apply (proj1 (proj2 (proj2 C6_empty_same_as_absent))
             initial_state (mkDelta (PyStr "r") Missing)
             _ _ _ eq_refl).
    left. discriminate.
  - apply (proj1 (proj2 (proj2 (proj2 C6_empty_same_as_absent)))
             initial_state (mkDelta Missing (PyStr "x"))
             _ _ _ eq_refl).
    left. discriminate.
Defined.

(** ** The loop as a splicing of the relayed text *)

Lemma splice_app (tks1 tks2 : list Token) :
  forall s,
    splice s (tks1 ++ tks2)%list
    = (fst (splice (fst (splice s tks1)) tks2),
       (snd (splice s tks1) ++ snd (splice (fst (splice s tks1)) tks2))%list).
Proof.
  induction tks1 as [|tk tks1 IH]; intros s; simpl.
  - now destruct (splice s tks2).
  - destruct (splice_one s tk) as [s1 y]. rewrite IH.
    destruct (splice s1 tks1) as [s2 ys]. simpl.
    reflexivity.
Qed.

Lemma relayed_app (fs1 fs2 : list ChatCompletionChunk) :
  relayed (fs1 ++ fs2)%list = (relayed fs1 ++ relayed fs2)%list.
Proof. unfold relayed. apply flat_map_app. Qed.

Lemma relayed_cons (f : ChatCompletionChunk) (fs : list ChatCompletionChunk) :
  relayed (f :: fs) = (relayed_frag f ++ relayed fs)%list.
Proof. reflexivity. Qed.

Lemma handle_delta_splice (st : LoopState) (d : ChoiceDelta) :
  status (fst (fst (handle_delta st d))) = fst (splice (status st) (relayed_delta d))
  /\ snd (handle_delta st d) = snd (splice (status st) (relayed_delta d)).
Proof.
  unfold handle_delta, handle_reasoning, handle_content, relayed_delta.
  destruct (present (reasoning_content d)) eqn:P1;
    destruct (present (content d)) eqn:P2;
    destruct (status st =? "") eqn:S1;
    destruct (status st =? "think") eqn:S2;
    try (apply String.eqb_eq in S1; apply String.eqb_eq in S2; congruence);
    cbn; rewrite ?P2; cbn; rewrite ?S1, ?S2; cbn; split; reflexivity.
Qed.

Lemma loop_body_splice (st : LoopState) (r : ChatCompletionChunk) :
  exists st',
    loop_body st r = Ok (st', snd (splice (status st) (relayed_frag r)))
    /\ status st' = fst (splice (status st) (relayed_frag r)).
Proof.
  destruct r as [[|c cs] u].
  - rewrite loop_body_no_choices. eexists. split; reflexivity.
  - rewrite loop_body_choice. unfold relayed_frag. simpl.
    destruct (handle_delta_splice st (delta c)) as [E1 E2].
    eexists. split; [rewrite E2; reflexivity | exact E1].
Qed.

(** What the loop yields, and where [status] ends, is the splicing of the
    relayed text. *)
Lemma run_loop_splice (fs : list ChatCompletionChunk) :
  forall st,
  exists st',
    run_loop st fs = Ok (st', snd (splice (status st) (relayed fs)))
    /\ status st' = fst (splice (status st) (relayed fs)).
Proof.
  induction fs as [|f fs IH]; intros st.
  - exists st. split; reflexivity.
  - destruct (loop_body_splice st f) as (st1 & E1 & S1).
    destruct (IH st1) as (st2 & E2 & S2).
    exists st2. rewrite relayed_cons, splice_app. simpl fst; simpl snd.
    rewrite <- S1. split; [|exact S2].
    eapply run_loop_cons; eassumption.
Qed.

Lemma relayed_frag_texts (r : ChatCompletionChunk) :
  relayed_frag r
  = (opt_token AtReasoning (reasoning_text r)
     ++ opt_token AtContent (answer_text r))%list.
Proof.
  unfold relayed_frag, reasoning_text, answer_text, relayed_delta.
  destruct (choices r) as [|c cs]; [reflexivity|].
  destruct (present (reasoning_content (delta c)));
    destruct (present (content (delta c))); reflexivity.
Qed.

Lemma texts_plain (tks : list Token) : texts (plain tks) = map snd tks.
Proof. unfold texts, plain. rewrite map_map. reflexivity. Qed.

Lemma plain_app (t1 t2 : list Token) :
  plain (t1 ++ t2)%list = (plain t1 ++ plain t2)%list.
Proof. apply map_app. Qed.

(** Answer text met before any reasoning text passes unchanged, and so does
    reasoning text met after the first; [status] stays where it is. *)
Lemma splice_answers (tks : list Token) (s : string) :
  s <> "think" ->
  Forall (is_at AtContent) tks ->
  splice s tks = (s, plain tks).
Proof.
  intros N H. induction H as [|[k t] tks Hk _ IH]; [reflexivity|].
  unfold is_at in Hk. simpl in Hk. subst k. simpl.
  apply String.eqb_neq in N. rewrite N, IH. reflexivity.
Qed.

Lemma splice_reasonings (tks : list Token) (s : string) :
  s <> "" ->
  Forall (is_at AtReasoning) tks ->
  splice s tks = (s, plain tks).
Proof.
  intros N H. induction H as [|[k t] tks Hk _ IH]; [reflexivity|].
  unfold is_at in Hk. simpl in Hk. subst k. simpl.
  apply String.eqb_neq in N. rewrite N, IH. reflexivity.
Qed.

Lemma splice_settled (tks : list Token) (s : string) :
  s <> "" -> s <> "think" ->
  splice s tks = (s, plain tks).
Proof.
  intros N1 N2. apply String.eqb_neq in N1, N2.
  induction tks as [|[[|] t] tks IH]; [reflexivity| |];
    simpl; rewrite ?N1, ?N2, IH; reflexivity.
Qed.

Lemma relayed_no_reasoning (fs : list ChatCompletionChunk) :
  Forall (fun r => reasoning_text r = None) fs ->
  Forall (is_at AtContent) (relayed fs)
  /\ map snd (relayed fs) = answer_texts fs.
Proof.
  induction 1 as [|r fs Hr _ [IH1 IH2]]; [split; [constructor | reflexivity]|].
  rewrite relayed_cons, relayed_frag_texts, Hr. simpl.
  unfold answer_texts. simpl. fold (answer_texts fs).
  destruct (answer_text r) as [t|]; simpl.
  - split; [constructor; [reflexivity | exact IH1] | now rewrite IH2].
  - split; assumption.
Qed.

(** C9: answer text that arrives before any reasoning text leaves [status]
    at its initial value, so the reasoning text of a later fragment is
    still yielded with the opening marker in front. *)
Theorem C9_answer_first_keeps_opening_marker
        (fs : list ChatCompletionChunk) (f : ChatCompletionChunk) (t : string) :
  Forall (fun r => reasoning_text r = None) fs ->
  reasoning_text f = Some t ->
  exists st ys st' ys',
    response_stream fs = Ok (st, ys)
    /\ status st = ""
    /\ texts ys = answer_texts fs
    /\ loop_body st f = Ok (st', ys')
    /\ hd_error ys' = Some (yield AtReasoning ("<think>" ++ t))
    /\ response_stream (fs ++ [f])%list = Ok (st', (ys ++ ys')%list).
Proof.
  intros Hfs Hf.
  destruct (relayed_no_reasoning fs Hfs) as [HA HT].
  destruct (run_loop_splice fs initial_state) as (st & E & S).
  simpl status in E, S.
  rewrite (splice_answers (relayed fs) "") in E, S by (assumption || discriminate).
  simpl in E, S.
  destruct (loop_body_splice st f) as (st' & E' & S').
  exists st, (plain (relayed fs)), st', (snd (splice (status st) (relayed_frag f))).
  split; [exact E|]. split; [exact S|].
  split; [now rewrite texts_plain|].
  split; [exact E'|]. split.
  - rewrite S, relayed_frag_texts, Hf. simpl.
    destruct (splice "think" _). reflexivity.
  - unfold response_stream. eapply run_loop_app; [exact E|].
    simpl. rewrite E'. simpl. now rewrite app_nil_r.
Qed.

Lemma C9_answer_first_keeps_opening_marker_witness :
  exists st ys st' ys',
    response_stream [answer_frag "x"; answer_frag "y"] = Ok (st, ys)
    /\ status st = ""
    /\ texts ys = answer_texts [answer_frag "x"; answer_frag "y"]
    /\ loop_body st (reasoning_frag "r") = Ok (st', ys')
    /\ hd_error ys' = Some (yield AtReasoning ("<think>" ++ "r"))
    /\ response_stream ([answer_frag "x"; answer_frag "y"] ++ [reasoning_frag "r"])%list
       = Ok (st', (ys ++ ys')%list).
Proof.
  apply (C9_answer_first_keeps_opening_marker
           [answer_frag "x"; answer_frag "y"] (reasoning_frag "r") "r").
  - repeat constructor.
  - reflexivity.
Defined.

(** ** Counting the occurrences of a marker *)

Section HeadedPattern.

(** A pattern [String c p'] whose first character does not come back in
    [p']: a match of it cannot run across a later [c]. *)
Variable c : ascii.
Variable p' : string.
Hypothesis head_fresh : char_free c p' = true.

Lemma starts_with_cut (q u w : string) :
  char_free c q = true ->
  starts_with q (u ++ String c w) = starts_with q u.
Proof.
  revert u. induction q as [|a q IH]; intros u Hq; [reflexivity|].
  simpl in Hq. apply andb_true_iff in Hq. destruct Hq as [Ha Hq].
  destruct u as [|b u]; simpl.
  - apply negb_true_iff in Ha. now rewrite Ha.
  - now rewrite IH.
Qed.

Lemma occurrences_cut (u w : string) :
  occurrences (String c p') (u ++ String c w)
  = occurrences (String c p') u + occurrences (String c p') (String c w).
Proof.
  remember (occurrences (String c p') (String c w)) as k eqn:Hk.
  induction u as [|b u IH]; [subst k; reflexivity|].
  change (String b u ++ String c w) with (String b (u ++ String c w)).
  cbn [occurrences starts_with].
  rewrite IH, (starts_with_cut p' u w head_fresh). lia.
Qed.

End HeadedPattern.

Lemma starts_with_app (p u v : string) :
  starts_with p u = true -> starts_with p (u ++ v) = true.
Proof.
  revert u. induction p as [|a p IH]; intros u H; [reflexivity|].
  destruct u as [|b u]; [discriminate|].
  simpl in *. apply andb_true_iff in H. destruct H as [-> H].
  now rewrite IH.
Qed.

Lemma occurrences_app_zero (a : ascii) (p u v : string) :
  occurrences (String a p) (u ++ v) = 0 ->
  occurrences (String a p) u = 0 /\ occurrences (String a p) v = 0.
Proof.
  induction u as [|b u IH]; intros H.
  - split; [reflexivity | exact H].
  - change (String b u ++ v) with (String b (u ++ v)) in H.
    cbn [occurrences] in *.
    destruct (starts_with (String a p) (String b u)) eqn:E.
    + apply (starts_with_app _ _ v) in E.
      change (String b u ++ v) with (String b (u ++ v)) in E.
      rewrite E in H. discriminate.
    + destruct (starts_with (String a p) (String b (u ++ v))); [discriminate|].
      simpl in H. destruct (IH H) as [H1 H2]. split; [exact H1 | exact H2].
Qed.

(** Both markers start with their only ["<"]. *)
Lemma occurrences_open_marker (p u w : string) :
  p = think_open \/ p = think_close ->
  occurrences p (u ++ think_open ++ w)
  = occurrences p u + (if p =? think_open then 1 else 0) + occurrences p w.
Proof.
  intros [-> | ->]; unfold think_open, think_close;
    change ("<think>" ++ w) with (String "<" ("think>" ++ w)).
  - rewrite (occurrences_cut "<" "think>" eq_refl u (("think>") ++ w)).
    cbn. lia.
  - rewrite (occurrences_cut "<" "/think>" eq_refl u (("think>") ++ w)).
    cbn. lia.
Qed.

Lemma occurrences_close_marker (p u w : string) :
  p = think_open \/ p = think_close ->
  occurrences p (u ++ think_close ++ w)
  = occurrences p u + (if p =? think_close then 1 else 0) + occurrences p w.
Proof.
  intros [-> | ->]; unfold think_open, think_close;
    change ("</think>" ++ w) with (String "<" ("/think>" ++ w)).
  - rewrite (occurrences_cut "<" "think>" eq_refl u (("/think>") ++ w)).
    cbn. lia.
  - rewrite (occurrences_cut "<" "/think>" eq_refl u (("/think>") ++ w)).
    cbn. lia.
Qed.

(** ** Streams without reasoning text *)

Lemma transcript_plain (tks : list Token) :
  transcript (plain tks) = join (map snd tks).
Proof. unfold transcript. now rewrite texts_plain. Qed.

Lemma plain_sites (k : YieldSite) (tks : list Token) :
  Forall (is_at k) tks -> Forall (fun y => site y = k) (plain tks).
Proof.
  induction 1 as [|tk tks H _ IH]; constructor; [exact H | exact IH].
Qed.

(** C5, as the code has it: when no fragment carries reasoning text, the
    events are the non-empty answer texts, in order and unmodified, all
    yielded by the answer block, and [status] never leaves its initial
    value.  No marker is inserted: the transcript is the concatenation of
    the answer texts, so a marker occurs in it only where the answer text
    itself has one.  In particular [{answer:"hello"}] yields exactly
    "hello". *)
Theorem C5_no_reasoning_no_marker_inserted :
  (forall fs,
      Forall (fun r => reasoning_text r = None) fs ->
      exists st ys,
        response_stream fs = Ok (st, ys)
        /\ texts ys = answer_texts fs
        /\ Forall (fun y => site y = AtContent) ys
        /\ status st = ""
        /\ transcript ys = join (answer_texts fs)
        /\ (occurrences think_open (join (answer_texts fs)) = 0 ->
            occurrences think_open (transcript ys) = 0)
        /\ (occurrences think_close (join (answer_texts fs)) = 0 ->
            occurrences think_close (transcript ys) = 0))
  /\ (exists st ys,
         response_stream [answer_frag "hello"] = Ok (st, ys)
         /\ texts ys = ["hello"]).
Proof.
  split.
  - intros fs Hfs.
    destruct (relayed_no_reasoning fs Hfs) as [HA HT].
    destruct (run_loop_splice fs initial_state) as (st & E & S).
    simpl status in E, S.
    rewrite (splice_answers (relayed fs) "") in E, S by (assumption || discriminate).
    simpl in E, S.
    exists st, (plain (relayed fs)).
    assert (HJ : transcript (plain (relayed fs)) = join (answer_texts fs))
      by now rewrite transcript_plain, HT.
    split; [exact E|]. split; [now rewrite texts_plain|].
    split; [now apply plain_sites|]. split; [exact S|].
    split; [exact HJ|]. rewrite HJ. split; auto.
  - eexists; eexists; split; [vm_compute; reflexivity | reflexivity].
Qed.

Lemma C5_no_reasoning_no_marker_inserted_witness :
  exists st ys,
    response_stream [answer_frag "hel"; usage_frag (mkUsage 1 2 3); answer_frag "lo"]
      = Ok (st, ys)
    /\ texts ys = ["hel"; "lo"]
    /\ occurrences think_open (transcript ys) = 0
    /\ occurrences think_close (transcript ys) = 0.
Proof.
  destruct (proj1 C5_no_reasoning_no_marker_inserted
              [answer_frag "hel"; usage_frag (mkUsage 1 2 3); answer_frag "lo"])
    as (st & ys & E & T & _ & _ & _ & O & C).
  - repeat constructor.
  - exists st, ys. split; [exact E|]. split; [exact T|].
    split; [apply O; reflexivity | apply C; reflexivity].
Defined.

(** C5 as the specification words it does not hold: answer text that itself
    holds a marker is relayed with it, although no reasoning text was ever
    seen. *)
Lemma C5_counterexample :
  (exists st ys,
      response_stream [answer_frag "<think>"] = Ok (st, ys)
      /\ texts ys = ["<think>"]
      /\ occurrences think_open (transcript ys) = 1)
  /\ ~ (forall fs,
           Forall (fun r => reasoning_text r = None) fs ->
           forall st ys,
             response_stream fs = Ok (st, ys) ->
             occurrences think_open (transcript ys) = 0
             /\ occurrences think_close (transcript ys) = 0).
Proof.
  split.
  - eexists; eexists; split; [vm_compute; reflexivity | split; reflexivity].
  - intros H.
    destruct (H [answer_frag "<think>"]
                ltac:(repeat constructor) _ _ eq_refl) as [H1 _].
    vm_compute in H1. discriminate.
Qed.

(** ** Streams with reasoning text followed by answer text *)

Lemma relayed_nonempty (fs : list ChatCompletionChunk) :
  Forall (fun tk => snd tk <> "") (relayed fs).
Proof.
  assert (P : forall a, present a = true -> str_of a <> "").
  { intros a H. apply present_spec in H. destruct H as (s & -> & N). exact N. }
  induction fs as [|f fs IH]; [constructor|].
  rewrite relayed_cons. apply Forall_app. split; [|exact IH].
  unfold relayed_frag, relayed_delta.
  destruct (choices f) as [|c cs]; [constructor|].
  destruct (present (reasoning_content (delta c))) eqn:P1;
    destruct (present (content (delta c))) eqn:P2; simpl;
    repeat constructor; simpl; auto.
Qed.

(** The first reasoning token, with an answer token somewhere behind it. *)
Lemma first_reasoning_split (xs : list Token) :
  forall t rest,
    Exists (is_at AtContent) rest ->
    exists pa t1 rest1,
      (xs ++ (AtReasoning, t) :: rest)%list = (pa ++ (AtReasoning, t1) :: rest1)%list
      /\ Forall (is_at AtContent) pa
      /\ Exists (is_at AtContent) rest1.
Proof.
  induction xs as [|[[|] t'] xs IH]; intros t rest H.
  - exists [], t, rest. repeat split; [constructor | exact H].
  - exists [], t', (xs ++ (AtReasoning, t) :: rest)%list.
    repeat split; [constructor|].
    apply Exists_app. right. now apply Exists_cons_tl.
  - destruct (IH t rest H) as (pa & t1 & rest1 & E & F & X).
    exists ((AtContent, t') :: pa), t1, rest1. simpl. rewrite E.
    repeat split; [constructor; [reflexivity | exact F] | exact X].
Qed.

(** The first answer token of a sequence that has one. *)
Lemma first_answer_split (xs : list Token) :
  Exists (is_at AtContent) xs ->
  exists mid t2 post,
    xs = (mid ++ (AtContent, t2) :: post)%list
    /\ Forall (is_at AtReasoning) mid.
Proof.
  induction xs as [|[[|] t'] xs IH]; intros H.
  - inversion H.
  - inversion H as [? ? H0|? ? H0]; subst; [discriminate H0|].
    destruct (IH H0) as (mid & t2 & post & -> & F).
    exists ((AtReasoning, t') :: mid), t2, post.
    split; [reflexivity | constructor; [reflexivity | exact F]].
  - exists [], t', xs. split; [reflexivity | constructor].
Qed.

Lemma relayed_has_answer (fs : list ChatCompletionChunk) :
  Exists (fun g => answer_text g <> None) fs ->
  Exists (is_at AtContent) (relayed fs).
Proof.
  induction 1 as [g fs H|g fs _ IH]; rewrite relayed_cons; apply Exists_app.
  - left. rewrite relayed_frag_texts. apply Exists_app. right.
    destruct (answer_text g) as [t|]; [|now elim H].
    constructor. reflexivity.
  - right. exact IH.
Qed.

(** The splicing of a token sequence cut at its first reasoning token and
    at the first answer token behind it. *)
Lemma splice_reasoning_then_answer (pa mid post : list Token) (t1 t2 : string) :
  Forall (is_at AtContent) pa ->
  Forall (is_at AtReasoning) mid ->
  splice "" (pa ++ (AtReasoning, t1) :: mid ++ (AtContent, t2) :: post)%list
  = ("answer",
     (plain pa ++ yield AtReasoning (think_open ++ t1)
        :: plain mid ++ yield AtContent (think_close ++ t2) :: plain post)%list).
Proof.
  intros Hpa Hmid.
  rewrite splice_app, (splice_answers pa "") by (assumption || discriminate).
  cbn [fst snd splice splice_one String.eqb].
  rewrite splice_app, (splice_reasonings mid "think") by (assumption || discriminate).
  cbn [fst snd splice splice_one].
  rewrite String.eqb_refl.
  rewrite (splice_settled post "answer") by discriminate.
  reflexivity.
Qed.

Lemma transcript_reasoning_then_answer (pa mid post : list Token) (t1 t2 : string) :
  transcript (plain pa ++ yield AtReasoning (think_open ++ t1)
                :: plain mid ++ yield AtContent (think_close ++ t2) :: plain post)%list
  = join (map snd pa)
    ++ think_open ++ t1 ++ join (map snd mid)
    ++ think_close ++ t2 ++ join (map snd post).
Proof.
  unfold transcript.
  rewrite texts_app, join_app, texts_plain. f_equal.
  rewrite texts_cons, join_cons. cbn [value mr_content yield].
  rewrite append_assoc. f_equal. f_equal.
  rewrite texts_app, join_app, texts_plain. f_equal.
  rewrite texts_cons, join_cons. cbn [value mr_content yield].
  rewrite append_assoc. f_equal. f_equal.
  now rewrite texts_plain.
Qed.

Lemma occurrences_spliced (p u v w : string) :
  p = think_open \/ p = think_close ->
  occurrences p (u ++ v ++ w) = 0 ->
  occurrences p (u ++ think_open ++ v ++ think_close ++ w) = 1.
Proof.
  intros Hp H0.
  rewrite (occurrences_open_marker p u _ Hp), (occurrences_close_marker p v w Hp).
  assert (Z : occurrences p u = 0 /\ occurrences p v = 0 /\ occurrences p w = 0).
  { destruct Hp as [-> | ->]; unfold think_open, think_close in *;
      apply occurrences_app_zero in H0; destruct H0 as [Hu H0];
      apply occurrences_app_zero in H0; destruct H0 as [Hv Hw]; auto. }
  destruct Z as (-> & -> & ->).
  destruct Hp as [-> | ->]; reflexivity.
Qed.

Lemma join_map_snd_cut (pa mid post : list Token) (t1 t2 : string) :
  join (map snd (pa ++ (AtReasoning, t1) :: mid ++ (AtContent, t2) :: post)%list)
  = join (map snd pa) ++ (t1 ++ join (map snd mid)) ++ (t2 ++ join (map snd post)).
Proof.
  rewrite map_app, join_app. f_equal.
  cbn [map snd]. rewrite join_cons, map_app, join_app, append_assoc.
  reflexivity.
Qed.

(** C1, as the code has it.  Take a stream in which a fragment with
    reasoning text is followed (in the same fragment or a later one) by
    answer text.  Cut the relayed text at its first reasoning text [t1] and
    at the first answer text [t2] behind it: only answer text comes before
    [t1], only reasoning text lies between [t1] and [t2].  Then the events
    are the relayed texts, in order, with "<think>" put in front of [t1] and
    "</think>" in front of [t2] and nothing else changed: each marker is
    inserted once, the opening one first.  The transcript therefore holds
    exactly one "<think>" (one "</think>") whenever the relayed text brings
    none of its own. *)
Theorem C1_markers_spliced_once
        (fs l1 l2 : list ChatCompletionChunk) (f : ChatCompletionChunk) :
  fs = (l1 ++ f :: l2)%list ->
  reasoning_text f <> None ->
  Exists (fun g => answer_text g <> None) (f :: l2) ->
  exists pa t1 mid t2 post st ys,
    relayed fs = (pa ++ (AtReasoning, t1) :: mid ++ (AtContent, t2) :: post)%list
    /\ Forall (is_at AtContent) pa
    /\ Forall (is_at AtReasoning) mid
    /\ t1 <> "" /\ t2 <> ""
    /\ response_stream fs = Ok (st, ys)
    /\ texts ys
       = (map snd pa ++ ("<think>" ++ t1)%string
            :: map snd mid ++ ("</think>" ++ t2)%string :: map snd post)%list
    /\ transcript ys
       = join (map snd pa)
         ++ "<think>" ++ t1 ++ join (map snd mid)
         ++ "</think>" ++ t2 ++ join (map snd post)
    /\ (occurrences "<think>" (join (map snd (relayed fs))) = 0 ->
        occurrences "<think>" (transcript ys) = 1)
    /\ (occurrences "</think>" (join (map snd (relayed fs))) = 0 ->
        occurrences "</think>" (transcript ys) = 1).
Proof.
  intros -> Hr Ha.
  (* the relayed text has a reasoning token with an answer token behind it *)
  assert (Hrel : exists t rest,
             relayed (l1 ++ f :: l2)%list
             = (relayed l1 ++ (AtReasoning, t) :: rest)%list
             /\ Exists (is_at AtContent) rest).
  { destruct (reasoning_text f) as [t|] eqn:Ef; [|now elim Hr].
    exists t, (opt_token AtContent (answer_text f) ++ relayed l2)%list.
    split.
    - rewrite relayed_app, relayed_cons, relayed_frag_texts, Ef. reflexivity.
    - apply Exists_app.
      inversion Ha as [? ? H|? ? H]; subst.
      + left. destruct (answer_text f) as [t'|]; [|now elim H].
        constructor. reflexivity.
      + right. now apply relayed_has_answer. }
  destruct Hrel as (t & rest & Erel & Hrest).
  destruct (first_reasoning_split (relayed l1) t rest Hrest)
    as (pa & t1 & rest1 & E1 & Hpa & Hrest1).
  destruct (first_answer_split rest1 Hrest1) as (mid & t2 & post & -> & Hmid).
  rewrite E1 in Erel.
  (* both texts are non-empty *)
  pose proof (relayed_nonempty (l1 ++ f :: l2)%list) as Hne.
  rewrite Erel in Hne.
  apply Forall_app in Hne. destruct Hne as [_ Hne].
  inversion Hne as [|? ? Ht1 Hne']; subst.
  apply Forall_app in Hne'. destruct Hne' as [_ Hne'].
  inversion Hne' as [|? ? Ht2 _]; subst.
  simpl in Ht1, Ht2.
  (* the run *)
  destruct (run_loop_splice (l1 ++ f :: l2)%list initial_state) as (st & E & _).
  simpl status in E.
  rewrite Erel, (splice_reasoning_then_answer pa mid post t1 t2 Hpa Hmid) in E.
  simpl snd in E.
  pose proof (transcript_reasoning_then_answer pa mid post t1 t2) as HT.
  exists pa, t1, mid, t2, post, st,
    (plain pa ++ yield AtReasoning (think_open ++ t1)
       :: plain mid ++ yield AtContent (think_close ++ t2) :: plain post)%list.
  split; [exact Erel|]. split; [exact Hpa|]. split; [exact Hmid|].
  split; [exact Ht1|]. split; [exact Ht2|]. split; [exact E|].
  split.
  { rewrite texts_app, texts_plain, texts_cons, texts_app, texts_plain,
      texts_cons, texts_plain. reflexivity. }
  split; [exact HT|].
  rewrite HT, Erel, join_map_snd_cut.
  rewrite <- (append_assoc t1 (join (map snd mid))).
  split; intros H0.
  - apply (occurrences_spliced think_open); [now left | exact H0].
  - apply (occurrences_spliced think_close); [now right | exact H0].
Qed.

Lemma C1_markers_spliced_once_witness :
  exists pa t1 mid t2 post st ys,
    relayed [answer_frag "x"; frag (PyStr "a") (PyStr "b"); reasoning_frag "c"]
    = (pa ++ (AtReasoning, t1) :: mid ++ (AtContent, t2) :: post)%list
    /\ response_stream
         [answer_frag "x"; frag (PyStr "a") (PyStr "b"); reasoning_frag "c"]
       = Ok (st, ys)
    /\ texts ys
       = (map snd pa ++ ("<think>" ++ t1)%string
            :: map snd mid ++ ("</think>" ++ t2)%string :: map snd post)%list
    /\ occurrences "<think>" (transcript ys) = 1
    /\ occurrences "</think>" (transcript ys) = 1.
Proof.
  destruct (C1_markers_spliced_once
              [answer_frag "x"; frag (PyStr "a") (PyStr "b"); reasoning_frag "c"]
              [answer_frag "x"] [reasoning_frag "c"]
              (frag (PyStr "a") (PyStr "b")))
    as (pa & t1 & mid & t2 & post & st & ys & R & _ & _ & _ & _ & E & T & _ & O & C).
  - reflexivity.
  - discriminate.
  - constructor. discriminate.
  - exists pa, t1, mid, t2, post, st, ys.
    split; [exact R|]. split; [exact E|]. split; [exact T|].
    split; [apply O; reflexivity | apply C; reflexivity].
Defined.

(** C1 as the specification words it does not hold: a marker that is part
    of the relayed text is relayed too, next to the inserted one. *)
Lemma C1_counterexample :
  (exists st ys,
      response_stream [reasoning_frag "<think>"; answer_frag "c"] = Ok (st, ys)
      /\ texts ys = ["<think><think>"; "</think>c"]
      /\ occurrences "<think>" (transcript ys) = 2)
  /\ ~ (forall fs l1 f l2 g l3,
           fs = (l1 ++ f :: l2 ++ g :: l3)%list ->
           reasoning_text f <> None ->
           answer_text g <> None ->
           forall st ys,
             response_stream fs = Ok (st, ys) ->
             occurrences "<think>" (transcript ys) = 1
             /\ occurrences "</think>" (transcript ys) = 1).
Proof.
  split.
  - eexists; eexists; split; [vm_compute; reflexivity | split; reflexivity].
  - intros H.
    destruct (H [reasoning_frag "<think>"; answer_frag "c"]
                [] (reasoning_frag "<think>") [] (answer_frag "c") []
                eq_refl ltac:(discriminate) ltac:(discriminate) _ _ eq_refl)
      as [H1 _].
    vm_compute in H1. discriminate.
Qed.

(** ** The phase only moves forward *)

Lemma splice_one_rank (s : string) (tk : Token) (n : nat) :
  phase_rank s = Some n ->
  exists n', phase_rank (fst (splice_one s tk)) = Some n' /\ n <= n'.
Proof.
  intros H. destruct tk as [[|] t]; simpl.
  - destruct (s =? "") eqn:E.
    + apply String.eqb_eq in E. subst s. inversion H; subst.
      exists 1. split; [reflexivity | lia].
    + exists n. split; [exact H | lia].
  - destruct (s =? "think") eqn:E.
    + apply String.eqb_eq in E. subst s. inversion H; subst.
      exists 2. split; [reflexivity | lia].
    + exists n. split; [exact H | lia].
Qed.

Lemma splice_rank (tks : list Token) :
  forall s n,
    phase_rank s = Some n ->
    exists n', phase_rank (fst (splice s tks)) = Some n' /\ n <= n'.
Proof.
  induction tks as [|tk tks IH]; intros s n H.
  - exists n. split; [exact H | lia].
  - destruct (splice_one_rank s tk n H) as (n1 & H1 & L1).
    simpl. destruct (splice_one s tk) as [s1 y]. simpl in H1.
    destruct (IH s1 n1 H1) as (n2 & H2 & L2).
    destruct (splice s1 tks) as [s2 ys]. simpl in *.
    exists n2. split; [exact H2 | lia].
Qed.

(** C4: the phase only moves forward.  The reasoning block changes
    [status] only from "" to "think", and does so whenever it meets
    non-empty reasoning text in "" ; the answer block changes it only from
    "think" to "answer", and does so whenever it meets non-empty answer text
    in "think".  Along any stream the phase reached after a prefix is not
    beyond the phase reached after the whole.  Once [status] is "answer" it
    stays there, and everything is relayed without a marker; reasoning text
    met in that phase is yielded as it is and stored in [stream_data]. *)
Theorem C4_phase_monotonic :
  (forall st d,
      (status (fst (fst (handle_reasoning st d))) = status st
       /\ (status st = "" -> present (reasoning_content d) = false))
      \/ (status st = "" /\ present (reasoning_content d) = true
          /\ status (fst (fst (handle_reasoning st d))) = "think"))
  /\ (forall st d,
         (status (fst (fst (handle_content st d))) = status st
          /\ (status st = "think" -> present (content d) = false))
         \/ (status st = "think" /\ present (content d) = true
             /\ status (fst (fst (handle_content st d))) = "answer"))
  /\ (forall fs1 fs2,
         exists st1 ys1 st2 ys2 n1 n2,
           response_stream fs1 = Ok (st1, ys1)
           /\ run_loop st1 fs2 = Ok (st2, ys2)
           /\ response_stream (fs1 ++ fs2)%list = Ok (st2, (ys1 ++ ys2)%list)
           /\ phase_rank (status st1) = Some n1
           /\ phase_rank (status st2) = Some n2
           /\ n1 <= n2)
  /\ (forall st fs,
         status st = "answer" ->
         exists st',
           run_loop st fs = Ok (st', plain (relayed fs))
           /\ status st' = "answer")
  /\ (forall st d t,
         status st = "answer" ->
         reasoning_content d = PyStr t -> t <> "" ->
         handle_reasoning st d
         = ({| status := "answer";
               stream_data :=
                 {| response_content := response_content (stream_data st);
                    response_reasoning_content := Some t |};
               stdout := stdout st |},
            d,
            [yield AtReasoning t])).
Proof.
  split; [|split; [|split; [|split]]].
  - intros st d. reasoning_cases st d; simpl.
    + right. auto.
    + left. split; [reflexivity | intros E; now elim S].
    + left. split; [reflexivity | reflexivity].
  - intros st d. content_cases st d; simpl.
    + right. auto.
    + left. split; [reflexivity | intros E; now elim S].
    + left. split; [reflexivity | reflexivity].
  - intros fs1 fs2.
    destruct (run_loop_splice fs1 initial_state) as (st1 & E1 & S1).
    destruct (run_loop_splice fs2 st1) as (st2 & E2 & S2).
    destruct (splice_rank (relayed fs1) (status initial_state) 0 eq_refl)
      as (n1 & R1 & _).
    rewrite <- S1 in R1.
    destruct (splice_rank (relayed fs2) (status st1) n1 R1) as (n2 & R2 & L).
    rewrite <- S2 in R2.
    exists st1, (snd (splice (status initial_state) (relayed fs1))),
      st2, (snd (splice (status st1) (relayed fs2))), n1, n2.
    split; [exact E1|]. split; [exact E2|].
    split; [eapply run_loop_app; eassumption|].
    split; [exact R1|]. split; [exact R2 | exact L].
  - intros st fs S.
    destruct (run_loop_splice fs st) as (st' & E & S').
    rewrite S, (splice_settled (relayed fs) "answer") in E, S' by discriminate.
    exists st'. split; [exact E | exact S'].
  - intros st d t S E N.
    rewrite handle_reasoning_later.
    + rewrite S, E. reflexivity.
    + apply present_spec. eauto.
    + rewrite S. discriminate.
Qed.

Lemma C4_phase_monotonic_witness :
  (exists st',
      run_loop {| status := "answer"; stream_data := StreamData_default; stdout := [] |}
               [reasoning_frag "again"; answer_frag "more"]
      = Ok (st', [yield AtReasoning "again"; yield AtContent "more"])
      /\ status st' = "answer")
  /\ handle_reasoning
       {| status := "answer"; stream_data := StreamData_default; stdout := [] |}
       {| reasoning_content := PyStr "again"; content := PyNone |}
     = ({| status := "answer";
           stream_data :=
             {| response_content := ""; response_reasoning_content := Some "again" |};
           stdout := [] |},
        {| reasoning_content := PyStr "again"; content := PyNone |},
        [yield AtReasoning "again"]).
Proof.
  split.
  - apply (proj1 (proj2 (proj2 (proj2 C4_phase_monotonic)))
             {| status := "answer"; stream_data := StreamData_default; stdout := [] |}
             [reasoning_frag "again"; answer_frag "more"]).
    reflexivity.
  - apply (proj2 (proj2 (proj2 (proj2 C4_phase_monotonic)))
             {| status := "answer"; stream_data := StreamData_default; stdout := [] |}
             {| reasoning_content := PyStr "again"; content := PyNone |} "again").
    + reflexivity.
    + reflexivity.
    + discriminate.
Defined.

(** ** What [stream_data] holds *)

Lemma handle_delta_stream_data (st : LoopState) (d : ChoiceDelta) :
  response_content (stream_data (fst (fst (handle_delta st d))))
  = response_content (stream_data st)
    ++ join (texts_at AtContent (snd (handle_delta st d)))
  /\ response_reasoning_content (stream_data (fst (fst (handle_delta st d))))
     = latest_reasoning (response_reasoning_content (stream_data st))
                        (snd (handle_delta st d)).
Proof.
  unfold handle_delta, handle_reasoning, handle_content, latest_reasoning.
  destruct (present (reasoning_content d)) eqn:P1;
    destruct (present (content d)) eqn:P2;
    destruct (status st =? "") eqn:S1;
    destruct (status st =? "think") eqn:S2;
    try (apply String.eqb_eq in S1; apply String.eqb_eq in S2; congruence);
    cbn; rewrite ?P2; cbn; rewrite ?S1, ?S2; cbn;
    rewrite ?append_nil_r; split; reflexivity.
Qed.

Lemma loop_body_stream_data (st st' : LoopState) (r : ChatCompletionChunk)
      (ys : list Yielded) :
  loop_body st r = Ok (st', ys) ->
  response_content (stream_data st')
  = response_content (stream_data st) ++ join (texts_at AtContent ys)
  /\ response_reasoning_content (stream_data st')
     = latest_reasoning (response_reasoning_content (stream_data st)) ys.
Proof.
  destruct r as [[|c cs] u].
  - rewrite loop_body_no_choices. intros E. inversion E; subst.
    simpl. now rewrite append_nil_r.
  - rewrite loop_body_choice. intros E. inversion E; subst.
    apply handle_delta_stream_data.
Qed.

Lemma run_loop_stream_data (fs : list ChatCompletionChunk) :
  forall st st' ys,
    run_loop st fs = Ok (st', ys) ->
    response_content (stream_data st')
    = response_content (stream_data st) ++ join (texts_at AtContent ys)
    /\ response_reasoning_content (stream_data st')
       = latest_reasoning (response_reasoning_content (stream_data st)) ys.
Proof.
  induction fs as [|f fs IH]; intros st st' ys E.
  - simpl in E. inversion E; subst. simpl. now rewrite append_nil_r.
  - apply run_loop_cons_inv in E.
    destruct E as (st1 & ys1 & ys2 & E1 & E2 & ->).
    apply loop_body_stream_data in E1. destruct E1 as [C1 R1].
    apply IH in E2. destruct E2 as [C2 R2].
    split.
    + rewrite C2, C1, texts_at_app, join_app, append_assoc. reflexivity.
    + rewrite R2, R1. unfold latest_reasoning.
      now rewrite texts_at_app, map_app, last_app_default.
Qed.

(** X1: The answer half of the accumulation property: [response_content] is the
    concatenation of everything the answer block yielded. *)
Lemma response_content_accumulated (fs : list ChatCompletionChunk) :
  exists st ys,
    response_stream fs = Ok (st, ys)
    /\ response_content (stream_data st) = join (texts_at AtContent ys).
Proof.
  destruct (run_loop_total fs initial_state) as (st & ys & E).
  exists st, ys. split; [exact E|].
  apply run_loop_stream_data in E. destruct E as [C _]. exact C.
Qed.

(** C10: after any stream, [response_reasoning_content] is the text of the
    last event yielded by the reasoning block, with its "<think>" when that
    event was the first, and [None] when there was no such event.  It holds
    the latest chunk only: after "a" then "b" it is "b". *)
Theorem C10_reasoning_field_holds_latest_chunk :
  (forall fs,
      exists st ys,
        response_stream fs = Ok (st, ys)
        /\ response_reasoning_content (stream_data st)
           = last (map Some (texts_at AtReasoning ys)) None)
  /\ (exists st ys,
         response_stream [reasoning_frag "a"] = Ok (st, ys)
         /\ response_reasoning_content (stream_data st) = Some "<think>a")
  /\ (exists st ys,
         response_stream [reasoning_frag "a"; reasoning_frag "b"] = Ok (st, ys)
         /\ response_reasoning_content (stream_data st) = Some "b")
  /\ (exists st ys,
         response_stream [answer_frag "x"] = Ok (st, ys)
         /\ response_reasoning_content (stream_data st) = None).
Proof.
  split.
  - intros fs.
    destruct (run_loop_total fs initial_state) as (st & ys & E).
    exists st, ys. split; [exact E|].
    apply run_loop_stream_data in E. destruct E as [_ R]. exact R.
  - repeat split;
      (eexists; eexists; split; [vm_compute; reflexivity | reflexivity]).
Qed.

(** C2 at [{reasoning:"a"}, {reasoning:"b"}]: the reasoning block yields
    "<think>a" and then "b", whose concatenation is "<think>ab", while
    [response_reasoning_content] ends as "b": line 62 assigns where line 72
    appends. *)
Theorem C2_reasoning_overwritten :
  exists st ys,
    response_stream [reasoning_frag "a"; reasoning_frag "b"] = Ok (st, ys)
    /\ texts_at AtReasoning ys = ["<think>a"; "b"]
    /\ join (texts_at AtReasoning ys) = "<think>ab"
    /\ response_reasoning_content (stream_data st) = Some "b"
    /\ response_reasoning_content (stream_data st)
       <> Some (join (texts_at AtReasoning ys)).
Proof.
  eexists; eexists; split; [vm_compute; reflexivity|].
  repeat split. discriminate.
Qed.

(** ** The loop over references and the loop over values *)

Module InPlaceFacts.

Import InPlace.

Lemma load_store_other (h : Heap) (l : Loc) (d : ChoiceDelta) (c : ChunkRef) :
  ~ In l (delta_refs c) ->
  load (store h l d) c = load h c.
Proof.
  intros N. unfold load. f_equal.
  apply map_ext_in. intros l' Hl'. unfold store.
  destruct (Nat.eqb_spec l' l) as [->|_]; [now elim N | reflexivity].
Qed.

(** On distinct delta objects the store is read before it is written:
    the loop over references yields what the loop over values yields. *)
Lemma run_loop_refs_distinct (cs : list ChunkRef) :
  forall st h,
    NoDup (all_refs cs) ->
    exists st' h' ys,
      run_loop_refs st h cs = Ok (st', h', ys)
      /\ run_loop st (map (load h) cs) = Ok (st', ys).
Proof.
  induction cs as [|c cs IH]; intros st h ND.
  - exists st, h, []. split; reflexivity.
  - unfold all_refs in ND. simpl in ND. fold (all_refs cs) in ND.
    destruct c as [[|l ls] u]; simpl in ND.
    + destruct (IH (print (print st (PrintStr usage_banner)) (PrintUsage u)) h ND)
        as (st' & h' & ys & E1 & E2).
      exists st', h', ys. split.
      * simpl. unfold loop_body_refs. simpl. rewrite E1. reflexivity.
      * change (map (load h) ({| delta_refs := []; usage_ref := u |} :: cs))
          with ({| choices := []; usage := u |} :: map (load h) cs).
        apply (run_loop_cons st _ _ _ st' [] ys (loop_body_no_choices st u) E2).
    + inversion ND as [|? ? Hl ND']; subst.
      destruct (handle_delta st (h l)) as [[st1 d1] ys1] eqn:Eh.
      assert (ND2 : NoDup (all_refs cs)).
      { apply NoDup_app_remove_l in ND'. exact ND'. }
      destruct (IH st1 (store h l d1) ND2) as (st' & h' & ys & E1 & E2).
      exists st', h', (ys1 ++ ys)%list.
      split.
      * simpl. unfold loop_body_refs. simpl. rewrite Eh. simpl.
        rewrite E1. reflexivity.
      * assert (M : map (load (store h l d1)) cs = map (load h) cs).
        { apply map_ext_in. intros c Hc. apply load_store_other.
          intros Hin. apply Hl. apply in_or_app. right.
          unfold all_refs. apply in_flat_map. eauto. }
        rewrite M in E2.
        change (map (load h) ({| delta_refs := l :: ls; usage_ref := u |} :: cs))
          with (load h {| delta_refs := l :: ls; usage_ref := u |}
                  :: map (load h) cs).
        eapply run_loop_cons; [|exact E2].
        unfold load. simpl. rewrite loop_body_choice. simpl. rewrite Eh.
        reflexivity.
Qed.

(** The same delta object delivered twice is read back with the marker
    written into it the first time. *)
Example same_object_twice :
  exists st h ys,
    run_loop_refs initial_state
      (fun _ => {| reasoning_content := PyStr "a"; content := PyNone |})
      [ {| delta_refs := [0]; usage_ref := None |};
        {| delta_refs := [0]; usage_ref := None |} ]
    = Ok (st, h, ys)
    /\ texts ys = ["<think>a"; "<think>a"].
Proof.
  eexists; eexists; eexists; split; [vm_compute; reflexivity | reflexivity].
Qed.

End InPlaceFacts.

(** ** What the loop reads of a fragment *)

Lemma loop_body_first_choice_only (st : LoopState) (r : ChatCompletionChunk) :
  loop_body st (first_choice_only r) = loop_body st r.
Proof.
  destruct r as [[|c cs] u]; [reflexivity|].
  unfold first_choice_only. simpl choices.
  now rewrite !loop_body_choice.
Qed.

(** X3: Only the first choice of a fragment is read: further choices, the
    [index] of the choice and the [usage] of a fragment that has choices
    change neither the events nor the final state. *)
Theorem further_choices_ignored (fs : list ChatCompletionChunk) :
  forall st, run_loop st (map first_choice_only fs) = run_loop st fs.
Proof.
  induction fs as [|f fs IH]; intros st; [reflexivity|].
  simpl. rewrite loop_body_first_choice_only.
  destruct (loop_body st f) as [[st1 ys1]|e]; simpl; [|reflexivity].
  now rewrite IH.
Qed.

(** ** Events and relayed texts, one to one *)

Lemma splice_carries (tks : list Token) :
  forall s, Forall2 carries (snd (splice s tks)) tks.
Proof.
  induction tks as [|[k t] tks IH]; intros s; [constructor|].
  cbn [splice].
  assert (H1 : carries (snd (splice_one s (k, t))) (k, t)).
  { unfold carries, splice_one.
    destruct k; [destruct (s =? "") | destruct (s =? "think")];
      cbn [snd fst yield site value mr_content]; auto. }
  destruct (splice_one s (k, t)) as [s1 y].
  specialize (IH s1). destruct (splice s1 tks) as [s2 ys].
  cbn [snd] in *. constructor; assumption.
Qed.

Lemma carries_nonempty (ys : list Yielded) (tks : list Token) :
  Forall2 carries ys tks ->
  Forall (fun tk => snd tk <> "") tks ->
  Forall (fun y => mr_content (value y) <> "") ys.
Proof.
  induction 1 as [|y tk ys tks [_ H] _ IH]; intros N; [constructor|].
  inversion N as [|? ? Ntk N']; subst.
  constructor; [|exact (IH N')].
  destruct H as [-> | [-> | ->]]; [exact Ntk | discriminate | discriminate].
Qed.

(** X4: Every run yields one event for each non-empty text of the stream, in
    the order of the stream and with the reasoning text of a fragment before
    its answer text.  An event holds its text unchanged or behind one
    marker, and no event is empty. *)
Theorem events_match_relayed_texts (fs : list ChatCompletionChunk) :
  exists st ys,
    response_stream fs = Ok (st, ys)
    /\ Forall2 carries ys (relayed fs)
    /\ length ys = length (relayed fs)
    /\ Forall (fun y => mr_content (value y) <> "") ys.
Proof.
  destruct (run_loop_splice fs initial_state) as (st & E & _).
  pose proof (splice_carries (relayed fs) (status initial_state)) as C.
  exists st, (snd (splice (status initial_state) (relayed fs))).
  split; [exact E|]. split; [exact C|].
  split; [exact (Forall2_length C)|].
  exact (carries_nonempty _ _ C (relayed_nonempty fs)).
Qed.

(** ** What the loop prints *)

Lemma handle_delta_stdout (st : LoopState) (d : ChoiceDelta) :
  stdout (fst (fst (handle_delta st d))) = stdout st.
Proof.
  unfold handle_delta, handle_reasoning, handle_content.
  destruct (present (reasoning_content d)) eqn:P1;
    destruct (present (content d)) eqn:P2;
    destruct (status st =? "") eqn:S1;
    destruct (status st =? "think") eqn:S2;
    cbn; rewrite ?P2; cbn; rewrite ?S1, ?S2; cbn; reflexivity.
Qed.

Lemma loop_body_stdout (st st' : LoopState) (r : ChatCompletionChunk)
      (ys : list Yielded) :
  loop_body st r = Ok (st', ys) ->
  stdout st' = (stdout st ++ printed_by r)%list.
Proof.
  destruct r as [[|c cs] u].
  - rewrite loop_body_no_choices. intros E. inversion E; subst.
    unfold printed_by. simpl. now rewrite <- app_assoc.
  - rewrite loop_body_choice. intros E. inversion E; subst.
    unfold printed_by. simpl. now rewrite handle_delta_stdout, app_nil_r.
Qed.

(** X5: The loop prints for the fragments without choices and for no other:
    the banner and then the usage, whatever it is ([None] included), once
    for each such fragment and in the order of the stream. *)
Theorem stdout_lists_fragments_without_choices (fs : list ChatCompletionChunk) :
  forall st,
  exists st' ys,
    run_loop st fs = Ok (st', ys)
    /\ stdout st' = (stdout st ++ flat_map printed_by fs)%list.
Proof.
  induction fs as [|f fs IH]; intros st.
  - exists st, []. split; [reflexivity | now rewrite app_nil_r].
  - destruct (loop_body_total st f) as (st1 & ys1 & E1).
    destruct (IH st1) as (st2 & ys2 & E2 & S2).
    exists st2, (ys1 ++ ys2)%list.
    split; [eapply run_loop_cons; eassumption|].
    rewrite S2, (loop_body_stdout _ _ _ _ E1). simpl.
    now rewrite <- app_assoc.
Qed.

(** ** The three kinds of stream *)

Lemma relayed_no_answer (fs : list ChatCompletionChunk) :
  Forall (fun g => answer_text g = None) fs ->
  Forall (is_at AtReasoning) (relayed fs)
  /\ map snd (relayed fs) = reasoning_texts fs.
Proof.
  induction 1 as [|r fs Hr _ [IH1 IH2]]; [split; [constructor | reflexivity]|].
  rewrite relayed_cons, relayed_frag_texts, Hr. simpl. rewrite app_nil_r.
  unfold reasoning_texts. simpl. fold (reasoning_texts fs).
  destruct (reasoning_text r) as [t|]; simpl.
  - split; [constructor; [reflexivity | exact IH1] | now rewrite IH2].
  - split; assumption.
Qed.

Lemma answer_text_none_dec (g : ChatCompletionChunk) :
  {answer_text g = None} + {answer_text g <> None}.
Proof. destruct (answer_text g); [right; discriminate | left; reflexivity]. Qed.

Lemma stream_kinds (fs : list ChatCompletionChunk) :
  no_reasoning fs \/ reasoning_unanswered fs \/ reasoning_answered fs.
Proof.
  induction fs as [|f fs IH]; [left; constructor|].
  destruct (reasoning_text f) as [t|] eqn:Ef.
  - right.
    destruct (Forall_Exists_dec (fun g => answer_text g = None)
                answer_text_none_dec (f :: fs)) as [HF|HE].
    + left. exists [], f, fs. rewrite Ef.
      repeat split; [constructor | discriminate | exact HF].
    + right. exists [], f, fs. rewrite Ef.
      repeat split; [discriminate | exact HE].
  - destruct IH as [H0 | [(l1 & g & l2 & -> & H1 & Hg & H2)
                         | (l1 & g & l2 & -> & Hg & H2)]].
    + left. constructor; assumption.
    + right; left. exists (f :: l1), g, l2.
      repeat split; [constructor; assumption | exact Hg | exact H2].
    + right; right. exists (f :: l1), g, l2.
      repeat split; [exact Hg | exact H2].
Qed.

Lemma relayed_unanswered (l1 l2 : list ChatCompletionChunk)
      (f : ChatCompletionChunk) :
  Forall (fun r => reasoning_text r = None) l1 ->
  reasoning_text f <> None ->
  Forall (fun g => answer_text g = None) (f :: l2) ->
  exists t1,
    reasoning_text f = Some t1
    /\ relayed (l1 ++ f :: l2)%list
       = (relayed l1 ++ (AtReasoning, t1) :: relayed l2)%list
    /\ Forall (is_at AtContent) (relayed l1)
    /\ Forall (is_at AtReasoning) (relayed l2)
    /\ map snd (relayed l1) = answer_texts l1
    /\ map snd (relayed l2) = reasoning_texts l2.
Proof.
  intros H1 Hf H2.
  destruct (reasoning_text f) as [t1|] eqn:Ef; [|now elim Hf].
  inversion H2 as [|? ? Haf H2']; subst.
  destruct (relayed_no_reasoning l1 H1) as [A1 A2].
  destruct (relayed_no_answer l2 H2') as [B1 B2].
  exists t1. split; [reflexivity|].
  split; [|auto].
  rewrite relayed_app, relayed_cons, relayed_frag_texts, Ef, Haf. reflexivity.
Qed.

Lemma relayed_answered (fs : list ChatCompletionChunk) :
  reasoning_answered fs ->
  exists pa t1 mid t2 post,
    relayed fs = (pa ++ (AtReasoning, t1) :: mid ++ (AtContent, t2) :: post)%list
    /\ Forall (is_at AtContent) pa
    /\ Forall (is_at AtReasoning) mid.
Proof.
  intros (l1 & f & l2 & -> & Hr & Ha).
  destruct (reasoning_text f) as [t|] eqn:Ef; [|now elim Hr].
  assert (Hrest : Exists (is_at AtContent)
                    (opt_token AtContent (answer_text f) ++ relayed l2)%list).
  { apply Exists_app.
    inversion Ha as [? ? H|? ? H]; subst.
    - left. destruct (answer_text f) as [t'|]; [|now elim H].
      constructor. reflexivity.
    - right. now apply relayed_has_answer. }
  destruct (first_reasoning_split (relayed l1) t _ Hrest)
    as (pa & t1 & rest1 & E1 & Hpa & Hrest1).
  destruct (first_answer_split rest1 Hrest1) as (mid & t2 & post & -> & Hmid).
  exists pa, t1, mid, t2, post. split; [|split; assumption].
  rewrite <- E1, relayed_app, relayed_cons, relayed_frag_texts, Ef. reflexivity.
Qed.

Lemma splice_unclosed (pa mid : list Token) (t1 : string) :
  Forall (is_at AtContent) pa ->
  Forall (is_at AtReasoning) mid ->
  splice "" (pa ++ (AtReasoning, t1) :: mid)%list
  = ("think", (plain pa ++ yield AtReasoning (think_open ++ t1) :: plain mid)%list).
Proof.
  intros Hpa Hmid.
  rewrite splice_app, (splice_answers pa "") by (assumption || discriminate).
  cbn [fst snd splice splice_one String.eqb].
  rewrite (splice_reasonings mid "think") by (assumption || discriminate).
  reflexivity.
Qed.

(** X6: The final [status] tells the three kinds of stream apart: it is [""]
    exactly when no fragment had reasoning text, ["think"] exactly when
    reasoning text came and no answer text came with it or after it, and
    ["answer"] exactly when answer text came with or after reasoning text. *)
Theorem final_status_characterised (fs : list ChatCompletionChunk) :
  exists st ys,
    response_stream fs = Ok (st, ys)
    /\ (status st = "" <-> no_reasoning fs)
    /\ (status st = "think" <-> reasoning_unanswered fs)
    /\ (status st = "answer" <-> reasoning_answered fs).
Proof.
  destruct (run_loop_splice fs initial_state) as (st & E & S).
  simpl status in E, S.
  exists st, (snd (splice "" (relayed fs))). split; [exact E|].
  assert (K0 : no_reasoning fs -> status st = "").
  { intros H. destruct (relayed_no_reasoning fs H) as [HA _].
    rewrite S, (splice_answers (relayed fs) "") by (assumption || discriminate).
    reflexivity. }
  assert (K1 : reasoning_unanswered fs -> status st = "think").
  { intros (l1 & f & l2 & -> & H1 & Hf & H2).
    destruct (relayed_unanswered l1 l2 f H1 Hf H2)
      as (t1 & _ & R & HA & HR & _).
    rewrite S, R, splice_unclosed by assumption. reflexivity. }
  assert (K2 : reasoning_answered fs -> status st = "answer").
  { intros H. destruct (relayed_answered fs H)
      as (pa & t1 & mid & t2 & post & R & HA & HR).
    rewrite S, R, splice_reasoning_then_answer by assumption. reflexivity. }
  destruct (stream_kinds fs) as [H | [H | H]];
    [pose proof (K0 H) as V | pose proof (K1 H) as V | pose proof (K2 H) as V];
    (split; [|split]);
    (split; [intros H'; first [exact H | rewrite V in H'; discriminate]
            | assumption]).
Qed.

Lemma tokens_shape (tks : list Token) :
  Forall (is_at AtContent) tks
  \/ (exists pa t1 mid,
         tks = (pa ++ (AtReasoning, t1) :: mid)%list
         /\ Forall (is_at AtContent) pa /\ Forall (is_at AtReasoning) mid)
  \/ (exists pa t1 mid t2 post,
         tks = (pa ++ (AtReasoning, t1) :: mid ++ (AtContent, t2) :: post)%list
         /\ Forall (is_at AtContent) pa /\ Forall (is_at AtReasoning) mid).
Proof.
  assert (R : forall l : list Token,
             Forall (is_at AtReasoning) l
             \/ exists mid t2 post,
                  l = (mid ++ (AtContent, t2) :: post)%list
                  /\ Forall (is_at AtReasoning) mid).
  { induction l as [|[[|] t] l IH].
    - left. constructor.
    - destruct IH as [H | (mid & t2 & post & -> & H)].
      + left. constructor; [reflexivity | exact H].
      + right. exists ((AtReasoning, t) :: mid), t2, post.
        split; [reflexivity | constructor; [reflexivity | exact H]].
    - right. exists [], t, l. split; [reflexivity | constructor]. }
  induction tks as [|[[|] t] tks IH].
  - left. constructor.
  - right. destruct (R tks) as [H | (mid & t2 & post & -> & H)].
    + left. exists [], t, tks. repeat split; [constructor | exact H].
    + right. exists [], t, mid, t2, post. repeat split; [constructor | exact H].
  - destruct IH as [H | [(pa & t1 & mid & -> & H1 & H2)
                        | (pa & t1 & mid & t2 & post & -> & H1 & H2)]].
    + left. constructor; [reflexivity | exact H].
    + right; left. exists ((AtContent, t) :: pa), t1, mid.
      repeat split; [constructor; [reflexivity | exact H1] | exact H2].
    + right; right. exists ((AtContent, t) :: pa), t1, mid, t2, post.
      repeat split; [constructor; [reflexivity | exact H1] | exact H2].
Qed.

Lemma transcript_unclosed (pa mid : list Token) (t1 : string) :
  transcript (plain pa ++ yield AtReasoning (think_open ++ t1) :: plain mid)%list
  = join (map snd pa) ++ think_open ++ t1 ++ join (map snd mid).
Proof.
  unfold transcript.
  rewrite texts_app, join_app, texts_plain. f_equal.
  rewrite texts_cons, join_cons. cbn [value mr_content yield].
  now rewrite append_assoc, texts_plain.
Qed.

(** ** A stream that ends during the reasoning *)

(** X7: When reasoning text comes and no answer text comes with it or after
    it, the opening marker is inserted and never closed: the events are the
    answer texts met before, "<think>" with the first reasoning text, and
    the further reasoning texts; [status] ends as "think"; and the
    transcript holds one "<think>" and no "</think>" unless the relayed
    text brings its own. *)
Theorem unanswered_reasoning_is_left_open
        (l1 l2 : list ChatCompletionChunk) (f : ChatCompletionChunk) (t1 : string) :
  Forall (fun r => reasoning_text r = None) l1 ->
  reasoning_text f = Some t1 ->
  Forall (fun g => answer_text g = None) (f :: l2) ->
  exists st ys,
    response_stream (l1 ++ f :: l2)%list = Ok (st, ys)
    /\ status st = "think"
    /\ texts ys
       = (answer_texts l1 ++ ("<think>" ++ t1)%string :: reasoning_texts l2)%list
    /\ transcript ys
       = join (answer_texts l1) ++ "<think>" ++ t1 ++ join (reasoning_texts l2)
    /\ (occurrences "<think>" (raw_text (l1 ++ f :: l2)%list) = 0 ->
        occurrences "<think>" (transcript ys) = 1)
    /\ (occurrences "</think>" (raw_text (l1 ++ f :: l2)%list) = 0 ->
        occurrences "</think>" (transcript ys) = 0).
Proof.
  intros H1 Hf H2.
  destruct (relayed_unanswered l1 l2 f H1 ltac:(rewrite Hf; discriminate) H2)
    as (t & Et & R & HA & HR & TA & TR).
  rewrite Hf in Et. inversion Et; subst t.
  destruct (run_loop_splice (l1 ++ f :: l2)%list initial_state) as (st & E & S).
  simpl status in E, S.
  rewrite R, splice_unclosed in E, S by assumption. simpl in E, S.
  pose proof (transcript_unclosed (relayed l1) (relayed l2) t1) as HT.
  rewrite TA, TR in HT.
  exists st, (plain (relayed l1)
                ++ yield AtReasoning (think_open ++ t1) :: plain (relayed l2))%list.
  split; [exact E|]. split; [exact S|].
  split.
  { now rewrite texts_app, texts_plain, texts_cons, texts_plain, TA, TR. }
  split; [exact HT|].
  rewrite HT. unfold raw_text.
  rewrite R, map_app, join_app. cbn [map snd]. rewrite join_cons, TA, TR.
  split; intros H0.
  - rewrite (occurrences_open_marker think_open) by now left.
    apply (occurrences_app_zero "<" "think>") in H0.
    unfold think_open. destruct H0 as [-> ->]. reflexivity.
  - rewrite (occurrences_open_marker think_close) by now right.
    apply (occurrences_app_zero "<" "/think>") in H0.
    unfold think_close. destruct H0 as [-> ->]. reflexivity.
Qed.

Lemma unanswered_reasoning_is_left_open_witness :
  exists st ys,
    response_stream ([answer_frag "x"] ++ reasoning_frag "a" :: [reasoning_frag "b"])%list
    = Ok (st, ys)
    /\ status st = "think"
    /\ texts ys = ["x"; "<think>a"; "b"]
    /\ occurrences "</think>" (transcript ys) = 0.
Proof.
  destruct (unanswered_reasoning_is_left_open
              [answer_frag "x"] [reasoning_frag "b"] (reasoning_frag "a") "a")
    as (st & ys & E & S & T & _ & _ & C).
  - repeat constructor.
  - reflexivity.
  - repeat constructor.
  - exists st, ys. split; [exact E|]. split; [exact S|]. split; [exact T|].
    apply C. reflexivity.
Defined.

(** ** The transcript against the relayed text *)

(** Every run, by the kind of its stream: the events are the relayed
    texts with no marker, with the opening marker, or with both. *)
Lemma run_shape (fs : list ChatCompletionChunk) :
  exists st ys,
    response_stream fs = Ok (st, ys)
    /\ ((status st = ""
         /\ Forall (is_at AtContent) (relayed fs)
         /\ ys = plain (relayed fs))
        \/ (status st = "think"
            /\ exists pa t1 mid,
                 relayed fs = (pa ++ (AtReasoning, t1) :: mid)%list
                 /\ Forall (is_at AtContent) pa
                 /\ Forall (is_at AtReasoning) mid
                 /\ ys = (plain pa ++ yield AtReasoning (think_open ++ t1)
                            :: plain mid)%list)
        \/ (status st = "answer"
            /\ exists pa t1 mid t2 post,
                 relayed fs
                 = (pa ++ (AtReasoning, t1) :: mid ++ (AtContent, t2) :: post)%list
                 /\ Forall (is_at AtContent) pa
                 /\ Forall (is_at AtReasoning) mid
                 /\ ys = (plain pa ++ yield AtReasoning (think_open ++ t1)
                            :: plain mid ++ yield AtContent (think_close ++ t2)
                            :: plain post)%list)).
Proof.
  destruct (run_loop_splice fs initial_state) as (st & E & S).
  simpl status in E, S.
  exists st, (snd (splice "" (relayed fs))). split; [exact E|].
  destruct (tokens_shape (relayed fs))
    as [H | [(pa & t1 & mid & R & H1 & H2)
            | (pa & t1 & mid & t2 & post & R & H1 & H2)]].
  - left. rewrite S, (splice_answers (relayed fs) "") by (assumption || discriminate).
    repeat split. exact H.
  - right; left. rewrite S, R, splice_unclosed by assumption.
    split; [reflexivity|]. exists pa, t1, mid. repeat split; assumption.
  - right; right. rewrite S, R, splice_reasoning_then_answer by assumption.
    split; [reflexivity|]. exists pa, t1, mid, t2, post. repeat split; assumption.
Qed.

Lemma length_append (a b : string) :
  String.length (a ++ b) = String.length a + String.length b.
Proof. induction a as [|x a IH]; simpl; [reflexivity | now rewrite IH]. Qed.

(** X8: The markers add 0, 7 or 15 characters to the relayed text, according to
    the final [status]; nothing of the relayed text is dropped. *)
Theorem transcript_length (fs : list ChatCompletionChunk) :
  exists st ys,
    response_stream fs = Ok (st, ys)
    /\ String.length (transcript ys)
       = String.length (raw_text fs) + marker_overhead (status st)
    /\ marker_overhead (status st) <= 15.
Proof.
  destruct (run_shape fs)
    as (st & ys & E & [(S & _ & ->)
                      | [(S & pa & t1 & mid & R & _ & _ & ->)
                        | (S & pa & t1 & mid & t2 & post & R & _ & _ & ->)]]);
    exists st; eexists; (split; [exact E|]); rewrite S; unfold raw_text.
  - rewrite transcript_plain. change (marker_overhead "") with 0. split; lia.
  - rewrite transcript_unclosed, R, map_app, join_app. cbn [map snd].
    rewrite join_cons, !length_append.
    change (marker_overhead "think") with 7.
    change (String.length think_open) with 7. split; lia.
  - rewrite transcript_reasoning_then_answer, R, join_map_snd_cut,
      !length_append.
    change (marker_overhead "answer") with 15.
    change (String.length think_open) with 7.
    change (String.length think_close) with 8. split; lia.
Qed.

Lemma occurrences_app_le (a : ascii) (p u w : string) :
  occurrences (String a p) u + occurrences (String a p) w
  <= occurrences (String a p) (u ++ w).
Proof.
  induction u as [|b u IH]; [simpl; lia|].
  change (String b u ++ w) with (String b (u ++ w)).
  cbn [occurrences].
  destruct (starts_with (String a p) (String b u)) eqn:E.
  - apply (starts_with_app _ _ w) in E.
    change (String b u ++ w) with (String b (u ++ w)) in E.
    rewrite E. lia.
  - destruct (starts_with (String a p) (String b (u ++ w))); lia.
Qed.

(** X9: On any stream the transcript holds at most one occurrence of a marker
    more than the relayed text does. *)
Theorem at_most_one_marker_added (fs : list ChatCompletionChunk) :
  exists st ys,
    response_stream fs = Ok (st, ys)
    /\ occurrences "<think>" (transcript ys)
       <= occurrences "<think>" (raw_text fs) + 1
    /\ occurrences "</think>" (transcript ys)
       <= occurrences "</think>" (raw_text fs) + 1.
Proof.
  destruct (run_shape fs)
    as (st & ys & E & [(S & _ & ->)
                      | [(S & pa & t1 & mid & R & _ & _ & ->)
                        | (S & pa & t1 & mid & t2 & post & R & _ & _ & ->)]]);
    exists st; eexists; (split; [exact E|]); unfold raw_text.
  - rewrite transcript_plain. split; lia.
  - rewrite transcript_unclosed, R, map_app, join_app. cbn [map snd].
    rewrite join_cons.
    set (u := join (map snd pa)). set (w := t1 ++ join (map snd mid)).
    rewrite (occurrences_open_marker think_open) by now left.
    rewrite (occurrences_open_marker think_close) by now right.
    pose proof (occurrences_app_le "<" "think>" u w).
    pose proof (occurrences_app_le "<" "/think>" u w).
    unfold think_open, think_close in *. simpl String.eqb. cbv iota. split; lia.
  - rewrite transcript_reasoning_then_answer, R, join_map_snd_cut.
    rewrite <- (append_assoc t1 (join (map snd mid))).
    set (u := join (map snd pa)). set (v := t1 ++ join (map snd mid)).
    set (w := t2 ++ join (map snd post)).
    rewrite (occurrences_open_marker think_open) by now left.
    rewrite (occurrences_open_marker think_close) by now right.
    rewrite (occurrences_close_marker think_open) by now left.
    rewrite (occurrences_close_marker think_close) by now right.
    pose proof (occurrences_app_le "<" "think>" u (v ++ w)).
    pose proof (occurrences_app_le "<" "/think>" u (v ++ w)).
    pose proof (occurrences_app_le "<" "think>" v w).
    pose proof (occurrences_app_le "<" "/think>" v w).
    unfold think_open, think_close in *. simpl String.eqb. cbv iota. split; lia.
Qed.

(** ** What [response_content] ends up holding *)


Lemma answers_of_answers (tks : list Token) :
  Forall (is_at AtContent) tks -> answers tks = map snd tks.
Proof.
  induction 1 as [|[k t] tks H _ IH]; [reflexivity|].
  unfold is_at in H. simpl in H. subst k.
  unfold answers in *. simpl. now rewrite IH.
Qed.





(** ** What the loop leaves in the delta objects *)

(** X10: After an iteration the two attributes of the delta read what was
    yielded from it, markers included: the events are the non-empty texts
    of the delta as the loop leaves it. *)
Theorem delta_reads_back_the_events (st : LoopState) (d : ChoiceDelta) :
  snd (handle_delta st d)
  = plain (relayed_delta (snd (fst (handle_delta st d)))).
Proof.
  unfold handle_delta, handle_reasoning, handle_content, relayed_delta, plain.
  destruct (present (reasoning_content d)) eqn:P1;
    destruct (present (content d)) eqn:P2;
    destruct (status st =? "") eqn:S1;
    destruct (status st =? "think") eqn:S2;
    try (apply String.eqb_eq in S1; apply String.eqb_eq in S2; congruence);
    cbn; rewrite ?P2; cbn; rewrite ?S1, ?S2; cbn; rewrite ?P1, ?P2; cbn;
    reflexivity.
Qed.

Lemma handle_delta_settled (st : LoopState) (d : ChoiceDelta) :
  status st <> "" -> status st <> "think" ->
  snd (fst (handle_delta st d)) = d
  /\ status (fst (fst (handle_delta st d))) = status st.
Proof.
  intros N1 N2. apply String.eqb_neq in N1, N2.
  unfold handle_delta, handle_reasoning, handle_content.
  destruct (present (reasoning_content d)) eqn:P1;
    destruct (present (content d)) eqn:P2;
    rewrite ?N1; cbn; rewrite ?P2, ?N2; cbn; rewrite ?N2; split; reflexivity.
Qed.

Module InPlaceWrites.

Import InPlace.

(** X11: Once [status] is "answer" the loop writes nothing new: whatever the
    fragments that follow, and whether or not they share delta objects,
    every delta in the store reads afterwards as it did before. *)
Theorem store_untouched_once_answering (cs : list ChunkRef) :
  forall st h,
    status st = "answer" ->
    exists st' h' ys,
      run_loop_refs st h cs = Ok (st', h', ys)
      /\ status st' = "answer"
      /\ forall l, h' l = h l.
Proof.
  induction cs as [|c cs IH]; intros st h S.
  - exists st, h, []. repeat split; [exact S].
  - destruct c as [[|l ls] u].
    + destruct (IH (print (print st (PrintStr usage_banner)) (PrintUsage u)) h S)
        as (st' & h' & ys & E & S' & H).
      exists st', h', ys. split; [|split; assumption].
      simpl. unfold loop_body_refs. simpl. rewrite E. reflexivity.
    + destruct (handle_delta_settled st (h l)) as [D S1];
        [rewrite S; discriminate | rewrite S; discriminate |].
      destruct (handle_delta st (h l)) as [[st1 d1] ys1] eqn:Eh.
      simpl in D, S1. subst d1. rewrite S in S1.
      destruct (IH st1 (store h l (h l)) S1) as (st' & h' & ys & E & S' & H).
      exists st', h', (ys1 ++ ys)%list. split; [|split; [exact S'|]].
      * simpl. unfold loop_body_refs. simpl. rewrite Eh. simpl.
        rewrite E. reflexivity.
      * intros l'. rewrite H. unfold store.
        destruct (Nat.eqb_spec l' l) as [->|_]; reflexivity.
Qed.

Lemma store_untouched_once_answering_witness :
  exists st' h' ys,
    run_loop_refs
      {| status := "answer"; stream_data := StreamData_default; stdout := [] |}
      (fun _ => {| reasoning_content := PyStr "r"; content := PyStr "c" |})
      [ {| delta_refs := [0]; usage_ref := None |};
        {| delta_refs := [0; 1]; usage_ref := None |} ]
    = Ok (st', h', ys)
    /\ status st' = "answer"
    /\ forall l, h' l = {| reasoning_content := PyStr "r"; content := PyStr "c" |}.
Proof.
  apply (store_untouched_once_answering
           [ {| delta_refs := [0]; usage_ref := None |};
             {| delta_refs := [0; 1]; usage_ref := None |} ]
           {| status := "answer"; stream_data := StreamData_default; stdout := [] |}
           (fun _ => {| reasoning_content := PyStr "r"; content := PyStr "c" |})).
  reflexivity.
Defined.

(** X12: On a stream whose delta objects are all distinct, the loop over the
    store yields the events, and reaches the state, of the loop over the
    fragments read as values before the run. *)
Theorem distinct_objects_run_as_values (cs : list ChunkRef) :
  forall st h,
    NoDup (all_refs cs) ->
    exists st' h' ys,
      run_loop_refs st h cs = Ok (st', h', ys)
      /\ run_loop st (map (load h) cs) = Ok (st', ys).
Proof. exact (InPlaceFacts.run_loop_refs_distinct cs). Qed.

Lemma distinct_objects_run_as_values_witness :
  exists st' h' ys,
    run_loop_refs initial_state
      (fun l => {| reasoning_content := PyStr "r"; content := PyNone |})
      [ {| delta_refs := [0]; usage_ref := None |};
        {| delta_refs := []; usage_ref := None |};
        {| delta_refs := [1; 2]; usage_ref := None |} ]
    = Ok (st', h', ys)
    /\ run_loop initial_state
         (map (load (fun l => {| reasoning_content := PyStr "r"; content := PyNone |}))
              [ {| delta_refs := [0]; usage_ref := None |};
                {| delta_refs := []; usage_ref := None |};
                {| delta_refs := [1; 2]; usage_ref := None |} ])
       = Ok (st', ys).
Proof.
  apply (distinct_objects_run_as_values
           [ {| delta_refs := [0]; usage_ref := None |};
             {| delta_refs := []; usage_ref := None |};
             {| delta_refs := [1; 2]; usage_ref := None |} ]).
  repeat constructor; simpl; intuition discriminate.
Defined.

End InPlaceWrites.
